(** * The relativity animation: a shallow embedding of [relativity.py]

    The script drives an external animation engine.  The embedding keeps
    the three things the script itself decides:

    - the geometry of the shapes it builds (circles, text and image
      extents, groups), over exact rationals: a decimal literal of the
      script is read as the rational it denotes, the rounding of binary
      floating point is outside the model;
    - the scene state it mutates (the list of objects on the canvas, the
      camera, the global frame configuration) and the instructions it sends
      to the renderer, in a state, error and output monad;
    - the two analytic formulas it hands to the engine (the warped surface
      and the photon orbit), over the real numbers.

    What the engine alone decides (how large a piece of text is, whether a
    file is there) is a parameter, see [Engine]. *)

From Stdlib Require Import List String ZArith QArith Qminmax Qabs Lqa Lia Bool.
From Stdlib Require Import Reals Lra.
Import ListNotations.

Local Open Scope Q_scope.

(** ** Points and directions *)

Record Point := mkPoint { px : Q; py : Q; pz : Q }.

Definition ORIGIN : Point := mkPoint 0 0 0.
Definition UP : Point := mkPoint 0 1 0.
Definition DOWN : Point := mkPoint 0 (-1) 0.
Definition RIGHT : Point := mkPoint 1 0 0.
Definition LEFT : Point := mkPoint (-1) 0 0.

Definition padd (a b : Point) : Point :=
  mkPoint (px a + px b) (py a + py b) (pz a + pz b).
Definition psub (a b : Point) : Point :=
  mkPoint (px a - px b) (py a - py b) (pz a - pz b).
Definition pscale (k : Q) (a : Point) : Point :=
  mkPoint (k * px a) (k * py a) (k * pz a).
Definition pneg (a : Point) : Point := pscale (-1) a.
(** Componentwise product, numpy's [a * b] on two vectors. *)
Definition pmul (a b : Point) : Point :=
  mkPoint (px a * px b) (py a * py b) (pz a * pz b).

(** Equality of points up to equality of rationals. *)
Definition Peq (a b : Point) : Prop :=
  px a == px b /\ py a == py b /\ pz a == pz b.

Definition Peqb (a b : Point) : bool :=
  Qeq_bool (px a) (px b) && Qeq_bool (py a) (py b) && Qeq_bool (pz a) (pz b).

(** [np.sign] on one coordinate. *)
Definition qsign (d : Q) : Q :=
  match d ?= 0 with Lt => -1 | Eq => 0 | Gt => 1 end.
Definition psign (d : Point) : Point :=
  mkPoint (qsign (px d)) (qsign (py d)) (qsign (pz d)).
Definition pabs (d : Point) : Point :=
  mkPoint (Qabs (px d)) (Qabs (py d)) (Qabs (pz d)).

(** ** Bounding boxes *)

Record Box := mkBox { lo : Point; hi : Point }.

Definition box_join (a b : Box) : Box :=
  mkBox (mkPoint (Qmin (px (lo a)) (px (lo b)))
                 (Qmin (py (lo a)) (py (lo b)))
                 (Qmin (pz (lo a)) (pz (lo b))))
        (mkPoint (Qmax (px (hi a)) (px (hi b)))
                 (Qmax (py (hi a)) (py (hi b)))
                 (Qmax (pz (hi a)) (pz (hi b)))).

(** A box of the given width and height centred on the origin, flat in z:
    how the engine hands over text, images and rectangles. *)
Definition centered_box (w h : Q) : Box :=
  mkBox (mkPoint (- (w / 2)) (- (h / 2)) 0) (mkPoint (w / 2) (h / 2) 0).

(** One coordinate of a critical point: the low side, the middle or the
    high side, by the sign of the direction. *)
Definition pick (d l h : Q) : Q :=
  match d ?= 0 with Lt => l | Eq => (l + h) / 2 | Gt => h end.

Definition box_critical_point (b : Box) (d : Point) : Point :=
  mkPoint (pick (px d) (px (lo b)) (px (hi b)))
          (pick (py d) (py (lo b)) (py (hi b)))
          (pick (pz d) (pz (lo b)) (pz (hi b))).

(** ** Colours and style *)

Inductive Color := BLUE | BLUE_D | BLUE_E | GREEN | RED | WHITE | BLACK | YELLOW.

Record Style := mkStyle {
  colors : list Color;          (* empty: the class default *)
  opacity : option Q;
  stroke_width : option Q
}.

Definition default_style : Style := mkStyle [] None None.

(** ** Mobjects

    A mobject has an identity (Python's object identity, here the rank of
    its construction), an outline of its own, and submobjects.  Outlines
    are what the script can build. *)

Definition RPoint : Type := (R * R * R)%type.

Inductive Outline :=
| NoPoints
| CirclePts (center : Point) (radius : Q)
| TextPts (text : string) (font_size : Z) (extent : Box)
| TexPts (tex : string) (extent : Box)
| SvgPts (file_name : string) (extent : Box)
| RectPts (extent : Box)
| LinePts (start finish : Point)
| PlanePts (x_range y_range : Z * Z * Z) (extent : Box)
| SpherePts (center : Point) (radius : Q)
| AnnulusPts (center : Point) (inner_radius outer_radius : Q) (turned : R)
| SurfacePts (func : R -> R -> RPoint) (u_range v_range : Z * Z)
             (resolution : nat * nat)
| CurvePts (func : R -> RPoint) (t_range : R * R).

#[local] Unset Elimination Schemes.
Inductive Mobject :=
  Mob (mob_id : nat) (style : Style) (outline : Outline)
      (submobjects : list Mobject).
#[local] Set Elimination Schemes.

Definition mob_id (m : Mobject) : nat := let 'Mob i _ _ _ := m in i.
Definition style (m : Mobject) : Style := let 'Mob _ s _ _ := m in s.
Definition outline (m : Mobject) : Outline := let 'Mob _ _ o _ := m in o.
Definition submobjects (m : Mobject) : list Mobject :=
  let 'Mob _ _ _ l := m in l.

Definition has_points (o : Outline) : bool :=
  match o with NoPoints => false | _ => true end.

(** [Mobject.split]: the mobject itself when it has an outline, then its
    submobjects; [m[i]] indexes this list. *)
Definition split (m : Mobject) : list Mobject :=
  (if has_points (outline m) then [m] else []) ++ submobjects m.

Definition getitem (m : Mobject) (i : nat) : option Mobject :=
  nth_error (split m) i.

(** [get_family]: the mobject and everything below it. *)
Fixpoint get_family (m : Mobject) : list Mobject :=
  match m with
  | Mob _ _ _ subs => m :: flat_map get_family subs
  end.

(** The extent of one outline.  The analytic outlines (surface, curve)
    are never used as a positioning reference by the script; their extent
    is not modelled and they count as having no boundary points. *)
Definition circle_box (c : Point) (r : Q) (rz : Q) : Box :=
  mkBox (mkPoint (px c - r) (py c - r) (pz c - rz))
        (mkPoint (px c + r) (py c + r) (pz c + rz)).

Definition own_box (o : Outline) : option Box :=
  match o with
  | NoPoints => None
  | CirclePts c r => Some (circle_box c r 0)
  | TextPts _ _ b | TexPts _ b | SvgPts _ b | RectPts b | PlanePts _ _ b =>
      Some b
  | LinePts a b => Some (box_join (mkBox a a) (mkBox b b))
  | SpherePts c r => Some (circle_box c r r)
  | AnnulusPts c _ r _ => Some (circle_box c r 0)
  | SurfacePts _ _ _ _ | CurvePts _ _ => None
  end.

Fixpoint boxes (m : Mobject) : list Box :=
  match m with
  | Mob _ _ o subs =>
      match own_box o with Some b => [b] | None => [] end
      ++ flat_map boxes subs
  end.

Definition join_all (bs : list Box) : option Box :=
  match bs with
  | [] => None
  | b :: rest => Some (fold_left box_join rest b)
  end.

Definition bounding_box (m : Mobject) : option Box := join_all (boxes m).

(** [get_critical_point]: the origin when the family has no points. *)
Definition get_critical_point (m : Mobject) (d : Point) : Point :=
  match bounding_box m with
  | None => ORIGIN
  | Some b => box_critical_point b d
  end.

Definition get_center (m : Mobject) : Point := get_critical_point m ORIGIN.

(** ** Moving and scaling

    [shift] and [scale] act on every member of the family.  [scale] is
    about the centre of the bounding box of the mobject it is called on,
    the engine's default. *)

Definition box_shift (v : Point) (b : Box) : Box :=
  mkBox (padd (lo b) v) (padd (hi b) v).

Definition rshift (v : Point) (p : RPoint) : RPoint :=
  let '(x, y, z) := p in
  (x + Q2R (px v), y + Q2R (py v), z + Q2R (pz v))%R.

Definition shift_outline (v : Point) (o : Outline) : Outline :=
  match o with
  | NoPoints => NoPoints
  | CirclePts c r => CirclePts (padd c v) r
  | TextPts s f b => TextPts s f (box_shift v b)
  | TexPts s b => TexPts s (box_shift v b)
  | SvgPts s b => SvgPts s (box_shift v b)
  | RectPts b => RectPts (box_shift v b)
  | LinePts a b => LinePts (padd a v) (padd b v)
  | PlanePts xr yr b => PlanePts xr yr (box_shift v b)
  | SpherePts c r => SpherePts (padd c v) r
  | AnnulusPts c i r t => AnnulusPts (padd c v) i r t
  | SurfacePts f ur vr n => SurfacePts (fun a b => rshift v (f a b)) ur vr n
  | CurvePts f tr => CurvePts (fun t => rshift v (f t)) tr
  end.

Fixpoint shift (v : Point) (m : Mobject) : Mobject :=
  match m with
  | Mob i st o subs => Mob i st (shift_outline v o) (map (shift v) subs)
  end.

(** The image of a point under the scaling by [k] about [a]. *)
Definition scale_point (k : Q) (a p : Point) : Point :=
  padd a (pscale k (psub p a)).

Definition box_scale (k : Q) (a : Point) (b : Box) : Box :=
  box_join (let p := scale_point k a (lo b) in mkBox p p)
           (let p := scale_point k a (hi b) in mkBox p p).

Definition rscale (k : Q) (a : Point) (p : RPoint) : RPoint :=
  let '(x, y, z) := p in
  (Q2R (px a) + Q2R k * (x - Q2R (px a)),
   Q2R (py a) + Q2R k * (y - Q2R (py a)),
   Q2R (pz a) + Q2R k * (z - Q2R (pz a)))%R.

Definition scale_outline (k : Q) (a : Point) (o : Outline) : Outline :=
  match o with
  | NoPoints => NoPoints
  | CirclePts c r => CirclePts (scale_point k a c) (Qabs k * r)
  | TextPts s f b => TextPts s f (box_scale k a b)
  | TexPts s b => TexPts s (box_scale k a b)
  | SvgPts s b => SvgPts s (box_scale k a b)
  | RectPts b => RectPts (box_scale k a b)
  | LinePts p q => LinePts (scale_point k a p) (scale_point k a q)
  | PlanePts xr yr b => PlanePts xr yr (box_scale k a b)
  | SpherePts c r => SpherePts (scale_point k a c) (Qabs k * r)
  | AnnulusPts c i r t =>
      AnnulusPts (scale_point k a c) (Qabs k * i) (Qabs k * r) t
  | SurfacePts f ur vr n =>
      SurfacePts (fun u v => rscale k a (f u v)) ur vr n
  | CurvePts f tr => CurvePts (fun t => rscale k a (f t)) tr
  end.

Fixpoint scale_about (k : Q) (a : Point) (m : Mobject) : Mobject :=
  match m with
  | Mob i st o subs =>
      Mob i st (scale_outline k a o) (map (scale_about k a) subs)
  end.

Definition scale (k : Q) (m : Mobject) : Mobject :=
  scale_about k (get_center m) m.

(** A turn about the z axis through the centre of a ring.  The script
    turns nothing else; other outlines are left as they are. *)
Definition rotate (angle : R) (m : Mobject) : Mobject :=
  match m with
  | Mob i st (AnnulusPts c a b t) subs =>
      Mob i st (AnnulusPts c a b (t + angle)%R) subs
  | _ => m
  end.

Definition DEFAULT_MOBJECT_TO_EDGE_BUFFER : Q := 0.5.
Definition DEFAULT_MOBJECT_TO_MOBJECT_BUFFER : Q := 0.25.

(** [m.next_to(target, direction, buff)]: put [m] beside [target], its
    side facing [target] at distance [buff] from the side of [target]. *)
Definition next_to (m target : Mobject) (direction : Point) (buff : Q)
  : Mobject :=
  let target_point := get_critical_point target direction in
  let point_to_align := get_critical_point m (pneg direction) in
  shift (padd (psub target_point point_to_align) (pscale buff direction)) m.

(** [m.move_to(point)]: bring the centre of [m] to [point]. *)
Definition move_to (m : Mobject) (point : Point) : Mobject :=
  shift (psub point (get_center m)) m.

(** [m.align_on_border(direction)], which [to_edge] calls, in a frame of
    the given half width and half height. *)
Definition align_on_border (frame_x_radius frame_y_radius : Q) (m : Mobject)
  (direction : Point) : Mobject :=
  let target_point :=
    pmul (psign direction) (mkPoint frame_x_radius frame_y_radius 0) in
  let point_to_align := get_critical_point m direction in
  let shift_val :=
    psub (psub target_point point_to_align)
         (pscale DEFAULT_MOBJECT_TO_EDGE_BUFFER direction) in
  shift (pmul shift_val (pabs (psign direction))) m.

(** [Mobject.add]: append, moving to the end what was already there. *)
Definition has_id (i : nat) (l : list Mobject) : bool :=
  existsb (fun x => Nat.eqb (mob_id x) i) l.

Definition add (m : Mobject) (new : list Mobject) : Mobject :=
  match m with
  | Mob i st o subs =>
      Mob i st o
        (filter (fun x => negb (has_id (mob_id x) new)) subs ++ new)
  end.

(** Style setters; they reach the whole family. *)
Definition with_colors (cs : list Color) (st : Style) : Style :=
  mkStyle cs (opacity st) (stroke_width st).
Definition with_opacity (a : Q) (st : Style) : Style :=
  mkStyle (colors st) (Some a) (stroke_width st).

Fixpoint restyle (f : Style -> Style) (m : Mobject) : Mobject :=
  match m with
  | Mob i st o subs => Mob i (f st) o (map (restyle f) subs)
  end.

Definition set_color (c : Color) : Mobject -> Mobject :=
  restyle (with_colors [c]).
Definition set_color_by_gradient (cs : list Color) : Mobject -> Mobject :=
  restyle (with_colors cs).
Definition set_opacity (a : Q) : Mobject -> Mobject :=
  restyle (with_opacity a).

(** ** Animations and the instructions sent to the renderer *)

Inductive Animation :=
| Create (m : Mobject)
| Write (m : Mobject)
| FadeIn (m : Mobject) (shift_by : option Point)
| FadeOut (m : Mobject)
| Transform (m target : Mobject)
| AnimateScale (m : Mobject) (factor : Q).     (* [m.animate.scale(k)] *)

Definition anim_mobject (a : Animation) : Mobject :=
  match a with
  | Create m | Write m | FadeIn m _ | FadeOut m | Transform m _
  | AnimateScale m _ => m
  end.

Definition is_remover (a : Animation) : bool :=
  match a with FadeOut _ => true | _ => false end.

(** The methods of the scene class. *)
Inductive Method :=
| m_construct | m_configure_global_settings | m_create_narrator
| m_show_title | m_introduce_narrator | m_special_relativity_chapter
| m_create_spacetime_diagram | m_create_reference_frames
| m_show_time_dilation | m_create_clock | m_general_relativity_chapter
| m_create_spacetime_curvature | m_show_gravitational_waves
| m_show_black_hole | m_create_photon_paths | m_show_narration
| m_show_conclusion.

(** What a run leaves behind, in order: a method was entered (with the
    canvas it found), a batch of animations was played, or the scene
    waited.  Recording the entries adds no behaviour to the script; it is
    what lets a theorem speak of the order of the calls. *)
Inductive Event :=
| Enter (m : Method) (canvas : list Mobject)
| Play (batch : list Animation) (run_time : option Q)
| Wait (duration : Q).

(** ** The scene state *)

Record Config := mkConfig {
  frame_width : Q;
  frame_height : Q;
  pixel_width : Z;
  pixel_height : Z
}.

Record Camera := mkCamera {
  phi : R;
  theta : R;
  background_color : string
}.

Record Scene := mkScene {
  next_id : nat;                 (* identities handed out so far *)
  mobjects : list Mobject;       (* the canvas, bottom first *)
  camera : Camera;
  config : Config                (* the engine's global [config] *)
}.

Definition DEGREES : R := (PI / 180)%R.

(** A scene as the engine starts it. *)
Definition fresh_scene : Scene :=
  mkScene 0 [] (mkCamera 0 (-90 * DEGREES) "#000000")
          (mkConfig (128 / 9) 8 1920 1080).

(** ** The monad: state, a fatal error, and the emitted instructions

    The state and the instructions emitted so far survive an error, as
    they do when a Python exception leaves [construct]. *)

Inductive Error :=
| AssetNotFound (path : string)
| IndexError.

Inductive Result (A : Type) :=
| Ok (a : A)
| Raise (e : Error).
Arguments Ok {A} a.
Arguments Raise {A} e.

Record Outcome (A : Type) := mkOutcome {
  result : Result A;
  final : Scene;
  emitted : list Event
}.
Arguments mkOutcome {A} _ _ _.
Arguments result {A} _.
Arguments final {A} _.
Arguments emitted {A} _.

Definition M (A : Type) : Type := Scene -> Outcome A.

Definition ret {A} (a : A) : M A := fun s => mkOutcome (Ok a) s [].

Definition bind {A B} (c : M A) (k : A -> M B) : M B :=
  fun s =>
    let o := c s in
    match result o with
    | Ok a =>
        let o' := k a (final o) in
        mkOutcome (result o') (final o') (emitted o ++ emitted o')
    | Raise e => mkOutcome (Raise e) (final o) (emitted o)
    end.

Definition raise {A} (e : Error) : M A := fun s => mkOutcome (Raise e) s [].

Definition emit (e : Event) : M unit := fun s => mkOutcome (Ok tt) s [e].

Definition gets {A} (f : Scene -> A) : M A := fun s => mkOutcome (Ok (f s)) s [].

Definition modify (f : Scene -> Scene) : M unit :=
  fun s => mkOutcome (Ok tt) (f s) [].

Declare Scope scene_scope.
Delimit Scope scene_scope with scene.
Notation "x <- c ;; k" := (bind c (fun x => k))
  (at level 61, c at next level, right associativity) : scene_scope.
Notation "' pat <- c ;; k" := (bind c (fun x => match x with pat => k end))
  (at level 61, pat pattern, c at next level, right associativity)
  : scene_scope.
Notation "c ;; k" := (bind c (fun _ => k))
  (at level 61, right associativity) : scene_scope.
Local Open Scope scene_scope.

(** [for x in l: acc = body(x, acc)]. *)
Fixpoint for_each {A B} (l : list A) (body : A -> B -> M B) (acc : B) : M B :=
  match l with
  | [] => ret acc
  | x :: rest => acc' <- body x acc ;; for_each rest body acc'
  end.

(** A list comprehension with an effectful element. *)
Fixpoint comprehension {A B} (l : list A) (f : A -> M B) : M (list B) :=
  match l with
  | [] => ret []
  | x :: rest => y <- f x ;; ys <- comprehension rest f ;; ret (y :: ys)
  end.

Definition range (n : nat) : list Z := map Z.of_nat (seq 0 n).

(** [enter m]: the entry of method [m] is recorded. *)
Definition enter (m : Method) : M unit :=
  canvas <- gets mobjects ;; emit (Enter m canvas).

(** ** Constructors of the engine's classes

    Each construction takes the next identity. *)

Definition new_mobject (st : Style) (o : Outline) (subs : list Mobject)
  : M Mobject :=
  fun s =>
    mkOutcome (Ok (Mob (next_id s) st o subs))
              (mkScene (S (next_id s)) (mobjects s) (camera s) (config s))
              [].

Definition VMobject (kwargs : Style) : M Mobject :=
  new_mobject kwargs NoPoints [].

Definition VGroup (members : list Mobject) : M Mobject :=
  g <- new_mobject default_style NoPoints [] ;; ret (add g members).

Definition Circle (radius : Q) (st : Style) : M Mobject :=
  new_mobject st (CirclePts ORIGIN radius) [].

Definition Rectangle (height width : Q) (color : Color) : M Mobject :=
  new_mobject (mkStyle [color] None None)
              (RectPts (centered_box width height)) [].

Definition Line (start finish : Point) (color : Color) : M Mobject :=
  new_mobject (mkStyle [color] None None) (LinePts start finish) [].

Definition Sphere (radius : Q) (st : Style) : M Mobject :=
  new_mobject st (SpherePts ORIGIN radius) [].

Definition Annulus (inner_radius outer_radius : Q) (color : Color)
  : M Mobject :=
  new_mobject (mkStyle [color] None None)
              (AnnulusPts ORIGIN inner_radius outer_radius 0) [].

Definition Surface (func : R -> R -> RPoint) (u_range v_range : Z * Z)
  (resolution : nat * nat) (checkerboard_colors : list Color)
  (stroke : Q) : M Mobject :=
  new_mobject (mkStyle checkerboard_colors None (Some stroke))
              (SurfacePts func u_range v_range resolution) [].

Definition ParametricFunction (func : R -> RPoint) (t_range : R * R)
  : M Mobject :=
  new_mobject default_style (CurvePts func t_range) [].

(** [NumberPlane]: one unit per step, centred; its two axes are its
    first two submobjects. *)
Definition NumberPlane (x_range y_range : Z * Z * Z) (line_style : Style)
  : M Mobject :=
  let '(x0, x1, _) := x_range in
  let '(y0, y1, _) := y_range in
  x_axis <- new_mobject default_style
              (LinePts (mkPoint (inject_Z x0) 0 0) (mkPoint (inject_Z x1) 0 0))
              [] ;;
  y_axis <- new_mobject default_style
              (LinePts (mkPoint 0 (inject_Z y0) 0) (mkPoint 0 (inject_Z y1) 0))
              [] ;;
  new_mobject line_style
    (PlanePts x_range y_range
       (mkBox (mkPoint (inject_Z x0) (inject_Z y0) 0)
              (mkPoint (inject_Z x1) (inject_Z y1) 0)))
    [x_axis; y_axis].

Definition x_axis (plane : Mobject) : Mobject :=
  nth 0 (submobjects plane) plane.
Definition y_axis (plane : Mobject) : Mobject :=
  nth 1 (submobjects plane) plane.

(** ** The script's own shapes *)

(** [class ThoughtBubble(VMobject)]. *)
Definition ThoughtBubble (kwargs : Style) : M Mobject :=
  self <- VMobject kwargs ;;
  bubbles <- VGroup [] ;;
  main_bubble <- Circle 0.7 default_style ;;
  bubbles <-
    for_each (range 3)
      (fun i bubbles =>
         bubble <- Circle (0.15 - inject_Z i * 0.03) default_style ;;
         let bubble :=
           next_to bubble main_bubble (padd DOWN LEFT)
                   (-0.1 + inject_Z i * 0.1) in
         ret (add bubbles [bubble]))
      bubbles ;;
  ret (add self [main_bubble; bubbles]).

(** [get_bubble_center]: [self[0].get_center()]; Python raises
    [IndexError] when there is no item 0. *)
Definition get_bubble_center (self : Mobject) : option Point :=
  option_map get_center (getitem self 0).

(** ** What the engine decides *)

Record Engine := mkEngine {
  file_exists : string -> bool;
  svg_extent : string -> Q * Q;       (* width and height as loaded *)
  text_extent : string -> Z -> Q * Q; (* of a text at a font size *)
  tex_extent : string -> Q * Q
}.

Definition path_join (dir file : string) : string :=
  (dir ++ "/" ++ file)%string.

(** [os.path.join("assets", "narrator.svg")]. *)
Definition narrator_path : string := path_join "assets" "narrator.svg".

Definition nl : string := String (Ascii.ascii_of_nat 10) EmptyString.

Section Script.

Variable E : Engine.

(** The engine hands over an image, a text or a formula centred on the
    origin. *)
Definition box_of (extent : Q * Q) : Box :=
  centered_box (fst extent) (snd extent).

Definition SVGMobject (file_name : string) : M Mobject :=
  if file_exists E file_name then
    new_mobject default_style
      (SvgPts file_name (box_of (svg_extent E file_name))) []
  else raise (AssetNotFound file_name).

(** [class Narrator(SVGMobject)]. *)
Definition Narrator : M Mobject :=
  self <- SVGMobject narrator_path ;;
  ret (scale 1.5 self).

Definition Text (text : string) (font_size : Z) (st : Style) : M Mobject :=
  new_mobject st
    (TextPts text font_size (box_of (text_extent E text font_size))) [].

Definition MathTex (tex : string) : M Mobject :=
  new_mobject default_style (TexPts tex (box_of (tex_extent E tex))) [].

(** ** The engine's scene operations *)

Definition set_mobjects (l : list Mobject) (s : Scene) : Scene :=
  mkScene (next_id s) l (camera s) (config s).

Definition on_canvas (canvas : list Mobject) (m : Mobject) : bool :=
  has_id (mob_id m) (flat_map get_family canvas).

(** [Scene.add] as [play] uses it: only what is not yet there, on top. *)
Definition scene_add (canvas : list Mobject) (m : Mobject) : list Mobject :=
  if on_canvas canvas m then canvas else canvas ++ [m].

(** [Scene.remove] of a top-level object. *)
Definition scene_remove (canvas : list Mobject) (m : Mobject)
  : list Mobject :=
  filter (fun x => negb (Nat.eqb (mob_id x) (mob_id m))) canvas.

(** What an animation has done to its object once it has run: the
    object keeps its identity. *)
Definition become (m target : Mobject) : Mobject :=
  Mob (mob_id m) (style target) (outline target) (submobjects target).

Definition animated (a : Animation) : Mobject :=
  match a with
  | Transform m target => become m target
  | AnimateScale m k => scale k m
  | _ => anim_mobject a
  end.

Definition settle (canvas : list Mobject) (a : Animation) : list Mobject :=
  if is_remover a then scene_remove canvas (anim_mobject a)
  else map (fun x => if Nat.eqb (mob_id x) (mob_id (anim_mobject a))
                     then animated a else x) canvas.

(** [self.play] on a batch: the animated objects come onto the
    canvas, the batch runs, then the faded ones leave. *)
Definition play (batch : list Animation) (run_time : option Q) : M unit :=
  modify (fun s =>
    set_mobjects (fold_left scene_add (map anim_mobject batch) (mobjects s)) s) ;;
  emit (Play batch run_time) ;;
  modify (fun s => set_mobjects (fold_left settle batch (mobjects s)) s).

(** [self.wait(duration)] is [self.play(Wait(run_time=duration))]: the
    animation is built on an empty [Mobject()] of its own, which [play]
    brings onto the canvas like any animated object and which nothing
    removes. *)
Definition wait (duration : Q) : M unit :=
  placeholder <- new_mobject default_style NoPoints [] ;;
  modify (fun s => set_mobjects (scene_add (mobjects s) placeholder) s) ;;
  emit (Wait duration).

Definition set_camera_orientation (phi theta : R) : M unit :=
  modify (fun s =>
    mkScene (next_id s) (mobjects s)
            (mkCamera phi theta (background_color (camera s))) (config s)).

Definition set_background_color (c : string) : M unit :=
  modify (fun s =>
    mkScene (next_id s) (mobjects s)
            (mkCamera (phi (camera s)) (theta (camera s)) c) (config s)).

Definition set_config (f : Config -> Config) : M unit :=
  modify (fun s => mkScene (next_id s) (mobjects s) (camera s) (f (config s))).

(** [m.to_edge(direction)] reads the frame size from the global config. *)
Definition to_edge (m : Mobject) (direction : Point) : M Mobject :=
  c <- gets config ;;
  ret (align_on_border (frame_width c / 2) (frame_height c / 2) m direction).

(** ** [class AdvancedRelativity(ThreeDScene)] *)

Definition colored (c : Color) : Style := mkStyle [c] None None.

Definition configure_global_settings : M unit :=
  enter m_configure_global_settings ;;
  set_background_color "#1a1a1a" ;;
  set_config (fun c => mkConfig 16 (frame_height c) (pixel_width c) (pixel_height c)) ;;
  set_config (fun c => mkConfig (frame_width c) 9 (pixel_width c) (pixel_height c)) ;;
  set_config (fun c => mkConfig (frame_width c) (frame_height c) 1920 (pixel_height c)) ;;
  set_config (fun c => mkConfig (frame_width c) (frame_height c) (pixel_width c) 1080).

Definition create_narrator : M Mobject :=
  enter m_create_narrator ;;
  narrator <- Narrator ;;
  narrator <- to_edge narrator LEFT ;;
  ret (shift DOWN narrator).

Definition show_title : M unit :=
  enter m_show_title ;;
  title <- Text "Einstein's Relativity" 72 default_style ;;
  subtitle <- Text "A Modern Visualization" 36 default_style ;;
  let title := set_color_by_gradient [BLUE; GREEN] title in
  let subtitle :=
    next_to subtitle title DOWN DEFAULT_MOBJECT_TO_MOBJECT_BUFFER in
  play [Write title; FadeIn subtitle (Some UP)] None ;;
  wait 2 ;;
  play [FadeOut title; FadeOut subtitle] None.

Definition introduce_narrator (narrator : Mobject) : M unit :=
  enter m_introduce_narrator ;;
  bubble <- ThoughtBubble default_style ;;
  let bubble := scale 0.7 bubble in
  let bubble := next_to bubble narrator UP DEFAULT_MOBJECT_TO_MOBJECT_BUFFER in
  caption <- Text "Let's explore spacetime!" 24 default_style ;;
  match get_bubble_center bubble with
  | None => raise IndexError
  | Some anchor =>
      let caption := move_to caption anchor in
      play [Create bubble; Write caption] None ;;
      wait 2 ;;
      play [FadeOut bubble; FadeOut caption] None
  end.

Definition show_narration (narrator : Mobject) (text : string) : M unit :=
  enter m_show_narration ;;
  bubble <- ThoughtBubble default_style ;;
  let bubble :=
    next_to (scale 0.7 bubble) narrator UP DEFAULT_MOBJECT_TO_MOBJECT_BUFFER in
  caption <- Text text 24 default_style ;;
  let caption := move_to caption (get_center bubble) in
  play [Create bubble; Write caption] None ;;
  wait 3 ;;
  play [FadeOut bubble; FadeOut caption] None.

Definition create_spacetime_diagram : M Mobject :=
  enter m_create_spacetime_diagram ;;
  grid <- NumberPlane (-3, 3, 1)%Z (-3, 3, 1)%Z
            (mkStyle [BLUE_D] (Some 0.5) (Some 1)) ;;
  x_label <- Text "Space" 24 default_style ;;
  let x_label :=
    next_to x_label (x_axis grid) RIGHT DEFAULT_MOBJECT_TO_MOBJECT_BUFFER in
  t_label <- Text "Time" 24 default_style ;;
  let t_label :=
    next_to t_label (y_axis grid) UP DEFAULT_MOBJECT_TO_MOBJECT_BUFFER in
  VGroup [grid; x_label; t_label].

Definition create_reference_frames : M (Mobject * Mobject) :=
  enter m_create_reference_frames ;;
  earth_frame <- Rectangle 2 1 BLUE ;;
  ship_frame <- Rectangle 2 1 RED ;;
  let earth_frame := shift (pscale 2 LEFT) earth_frame in
  let ship_frame := shift (pscale 2 RIGHT) ship_frame in
  earth_label <- Text "Earth" 20 default_style ;;
  let earth_label :=
    next_to earth_label earth_frame DOWN DEFAULT_MOBJECT_TO_MOBJECT_BUFFER in
  ship_label <- Text "Ship" 20 default_style ;;
  let ship_label :=
    next_to ship_label ship_frame DOWN DEFAULT_MOBJECT_TO_MOBJECT_BUFFER in
  earth_frame <- VGroup [earth_frame; earth_label] ;;
  ship_frame <- VGroup [ship_frame; ship_label] ;;
  ret (earth_frame, ship_frame).

Definition show_time_dilation (earth_frame ship_frame narrator : Mobject)
  : M unit :=
  enter m_show_time_dilation ;;
  earth_clock <- Circle 0.3 (colored BLUE) ;;
  let earth_clock :=
    next_to earth_clock earth_frame UP DEFAULT_MOBJECT_TO_MOBJECT_BUFFER in
  ship_clock <- Circle 0.3 (colored RED) ;;
  let ship_clock :=
    next_to ship_clock ship_frame UP DEFAULT_MOBJECT_TO_MOBJECT_BUFFER in
  play [Create earth_clock; Create ship_clock] None ;;
  play [AnimateScale earth_clock 1.0; AnimateScale ship_clock 0.8] (Some 2) ;;
  (* the two clocks are now the scaled ones *)
  let earth_clock := scale 1.0 earth_clock in
  let ship_clock := scale 0.8 ship_clock in
  show_narration narrator
    ("Time runs slower" ++ nl ++ "for fast-moving objects!") ;;
  play [FadeOut earth_clock; FadeOut ship_clock] None.

Definition special_relativity_chapter (narrator : Mobject) : M unit :=
  enter m_special_relativity_chapter ;;
  chapter_title <- Text "Special Relativity" 48 default_style ;;
  chapter_title <- to_edge chapter_title UP ;;
  play [Write chapter_title] None ;;
  diagram <- create_spacetime_diagram ;;
  play [Create diagram] None ;;
  '(earth_frame, ship_frame) <- create_reference_frames ;;
  show_time_dilation earth_frame ship_frame narrator ;;
  play [FadeOut diagram; FadeOut chapter_title] None ;;
  play [FadeOut earth_frame; FadeOut ship_frame] None.

(** Defined by the class and called nowhere. *)
Definition create_clock : M Mobject :=
  enter m_create_clock ;;
  face <- Circle 0.5 (colored WHITE) ;;
  hand <- Line ORIGIN (pscale 0.4 UP) RED ;;
  VGroup [face; hand].

Definition create_spacetime_curvature : M (Mobject * Mobject) :=
  enter m_create_spacetime_curvature ;;
  grid <- Surface (fun u v => (u, v, 0.5 * exp (- (u ^ 2 + v ^ 2)))%R)
            (-2, 2)%Z (-2, 2)%Z (15, 15)%nat [BLUE_D; BLUE_E] 1 ;;
  mass <- Sphere 0.5 default_style ;;
  let mass := set_color YELLOW mass in
  let mass := set_opacity 0.8 mass in
  ret (mass, grid).

Definition show_gravitational_waves (grid : Mobject) : M unit :=
  enter m_show_gravitational_waves ;;
  circles <- comprehension (range 5)
               (fun i => Circle (0.5 + 0.5 * inject_Z i)
                                (mkStyle [] None (Some 2))) ;;
  waves <- VGroup circles ;;
  let waves := set_color BLUE waves in
  let animations := map Create (split waves) in
  play animations (Some 3).

Definition create_photon_paths : M Mobject :=
  enter m_create_photon_paths ;;
  paths <- comprehension (range 5)
             (fun _ =>
                path <- ParametricFunction
                          (fun t => (1.5 * cos t, 1.5 * sin t,
                                     0.5 * sin (2 * t))%R)
                          (0, 2 * PI)%R ;;
                ret (set_color WHITE path)) ;;
  VGroup paths.

Definition show_black_hole (mass grid narrator : Mobject) : M unit :=
  enter m_show_black_hole ;;
  event_horizon <- Sphere 1 (colored BLACK) ;;
  let event_horizon := set_opacity 0.5 event_horizon in
  accretion_disk <- Annulus 1.5 3 BLUE ;;
  let accretion_disk := rotate (PI / 4) accretion_disk in
  play [Transform mass event_horizon; AnimateScale grid 0.8;
        Create accretion_disk] None ;;
  photons <- create_photon_paths ;;
  for_each (split photons)
    (fun photon _ => play [Create photon] (Some 0.5)) tt ;;
  show_narration narrator
    ("Black holes warp spacetime" ++ nl ++ "so severely that light" ++ nl
     ++ "cannot escape!").

Definition general_relativity_chapter (narrator : Mobject) : M unit :=
  enter m_general_relativity_chapter ;;
  set_camera_orientation (75 * DEGREES) (-45 * DEGREES) ;;
  chapter_title <- Text "General Relativity" 48 (colored GREEN) ;;
  play [Write chapter_title] None ;;
  wait 1 ;;
  '(mass, warped_grid) <- create_spacetime_curvature ;;
  einstein_eq <- MathTex "G_{\mu\nu} = \frac{8\pi G}{c^4} T_{\mu\nu}" ;;
  einstein_eq <- to_edge einstein_eq UP ;;
  play [Create warped_grid; FadeIn mass None; Write einstein_eq] None ;;
  show_gravitational_waves warped_grid ;;
  show_black_hole mass warped_grid narrator ;;
  play [FadeOut chapter_title; FadeOut einstein_eq] None.

Definition show_conclusion : M unit :=
  enter m_show_conclusion ;;
  final_text <-
    Text ("Relativity revolutionized our understanding" ++ nl
          ++ "of space, time, and gravity!") 36 default_style ;;
  let final_text := set_color_by_gradient [BLUE; GREEN] final_text in
  play [Write final_text] None ;;
  wait 3 ;;
  play [FadeOut final_text] None.

Definition construct : M unit :=
  enter m_construct ;;
  set_camera_orientation (70 * DEGREES) (-30 * DEGREES) ;;
  configure_global_settings ;;
  set_background_color "#1a1a1a" ;;
  show_title ;;
  narrator <- create_narrator ;;
  play [FadeIn narrator None] None ;;
  introduce_narrator narrator ;;
  special_relativity_chapter narrator ;;
  general_relativity_chapter narrator ;;
  show_conclusion.

End Script.

(** ** Reading a run *)

(** The five stages of the narrative and the methods that are them. *)
Inductive Stage :=
| Title | NarratorIntro | SpecialRelativityChapter
| GeneralRelativityChapter | Conclusion.

Definition stage_of (m : Method) : option Stage :=
  match m with
  | m_show_title => Some Title
  | m_introduce_narrator => Some NarratorIntro
  | m_special_relativity_chapter => Some SpecialRelativityChapter
  | m_general_relativity_chapter => Some GeneralRelativityChapter
  | m_show_conclusion => Some Conclusion
  | _ => None
  end.

(** What is on a canvas, by class. *)
Inductive Kind :=
| KGroup | KCircle | KText | KTex | KSvg (file_name : string) | KRect
| KLine | KPlane | KSphere | KAnnulus | KSurface | KCurve.

Definition kind_of (m : Mobject) : Kind :=
  match outline m with
  | NoPoints => KGroup
  | CirclePts _ _ => KCircle
  | TextPts _ _ _ => KText
  | TexPts _ _ => KTex
  | SvgPts f _ => KSvg f
  | RectPts _ => KRect
  | LinePts _ _ => KLine
  | PlanePts _ _ _ => KPlane
  | SpherePts _ _ => KSphere
  | AnnulusPts _ _ _ _ => KAnnulus
  | SurfacePts _ _ _ _ => KSurface
  | CurvePts _ _ => KCurve
  end.

(** The stages entered during a run, each with the canvas it found. *)
Definition stage_entries (tr : list Event) : list (Stage * list Mobject) :=
  flat_map (fun e =>
              match e with
              | Enter m canvas =>
                  match stage_of m with
                  | Some st => [(st, canvas)]
                  | None => []
                  end
              | _ => []
              end) tr.

Definition stage_sequence (tr : list Event) : list Stage :=
  map fst (stage_entries tr).

Definition is_narrator (m : Mobject) : bool :=
  match outline m with
  | SvgPts f _ => String.eqb f narrator_path
  | _ => false
  end.

(** What there is to see on a canvas: the objects with points somewhere
    in their family.  The empty mobject a [wait] leaves behind is not one
    of them. *)
Definition is_drawn (m : Mobject) : bool :=
  existsb (fun x => has_points (outline x)) (get_family m).

Definition drawn (canvas : list Mobject) : list Mobject :=
  filter is_drawn canvas.

(** Every stage of the run found nothing to see but the narrator on the
    canvas. *)
Definition every_stage_starts_clean (tr : list Event) : bool :=
  forallb (fun e => forallb is_narrator (drawn (snd e))) (stage_entries tr).

(** The batches that fade out a text of the given content. *)
Definition fades_out_text (text : string) (e : Event) : bool :=
  match e with
  | Play batch _ =>
      existsb (fun a =>
                 match a with
                 | FadeOut (Mob _ _ (TextPts t _ _) _) => String.eqb t text
                 | _ => false
                 end) batch
  | _ => false
  end.

Definition animates_narrator (e : Event) : bool :=
  match e with
  | Play batch _ => existsb (fun a => is_narrator (anim_mobject a)) batch
  | _ => false
  end.

(** The method an event records the entry of. *)
Definition entered (e : Event) : option Method :=
  match e with
  | Enter m _ => Some m
  | _ => None
  end.

(** How many batches a trace sends to the renderer. *)
Definition batches_played (tr : list Event) : nat :=
  List.length
    (filter (fun e => match e with Play _ _ => true | _ => false end) tr).

Definition is_raise {A} (r : Result A) : bool :=
  match r with Raise _ => true | Ok _ => false end.

(** The texts of the title card and of the closing card. *)
Definition title_text : string := "Einstein's Relativity".
Definition closing_text : string :=
  ("Relativity revolutionized our understanding" ++ nl
   ++ "of space, time, and gravity!")%string.

Definition five_stages : list Stage :=
  [Title; NarratorIntro; SpecialRelativityChapter; GeneralRelativityChapter;
   Conclusion].

(** The run fails, and fails before the title card has been faded out. *)
Definition fails_before_title_fade_out (E : Engine) (s : Scene) : Prop :=
  is_raise (result (construct E s)) = true
  /\ existsb (fades_out_text title_text) (emitted (construct E s)) = false.

(** The point of a surface at parameters [u], [v], and of a curve at
    parameter [t]. *)
Definition surface_at (m : Mobject) (u v : R) : option RPoint :=
  match outline m with
  | SurfacePts f _ _ _ => Some (f u v)
  | _ => None
  end.

Definition curve_at (m : Mobject) (t : R) : option RPoint :=
  match outline m with
  | CurvePts f _ => Some (f t)
  | _ => None
  end.

Definition t_range_of (m : Mobject) : option (R * R) :=
  match outline m with
  | CurvePts _ tr => Some tr
  | _ => None
  end.

(** ** Reading a thought bubble *)

Definition trailing_circles (bubble : Mobject) : list Mobject :=
  match getitem bubble 1 with
  | Some g => submobjects g
  | None => []
  end.

Definition radius_of (m : Mobject) : option Q :=
  match outline m with
  | CirclePts _ r => Some r
  | _ => None
  end.

Definition center_of (m : Mobject) : option Point :=
  match outline m with
  | CirclePts c _ => Some c
  | _ => None
  end.

(** What a caller may do to a bubble once it is built: move it or scale
    it. *)
Inductive Placement :=
| PShift (v : Point)
| PMoveTo (point : Point)
| PNextTo (target : Mobject) (direction : Point) (buff : Q)
| PScale (k : Q).

Definition place (m : Mobject) (op : Placement) : Mobject :=
  match op with
  | PShift v => shift v m
  | PMoveTo p => move_to m p
  | PNextTo t d b => next_to m t d b
  | PScale k => scale k m
  end.

(** Where [place m op] takes a point that is rigidly attached to [m]. *)
Definition carried (m : Mobject) (op : Placement) (p : Point) : Point :=
  match op with
  | PShift v => padd p v
  | PMoveTo q => padd p (psub q (get_center m))
  | PNextTo t d b =>
      padd p (padd (psub (get_critical_point t d)
                         (get_critical_point m (pneg d)))
                   (pscale b d))
  | PScale k => scale_point k (get_center m) p
  end.

(** ** Two engines to run the script on *)

(** Every file is there; a text is as wide as its length. *)
Definition studio : Engine :=
  mkEngine (fun _ => true)
           (fun _ => (1, 2))
           (fun t f => (inject_Z (Z.of_nat (String.length t)) * inject_Z f / 100,
                        inject_Z f / 50))
           (fun _ => (4, 1)).

(** The same engine with no file at all. *)
Definition bare_studio : Engine :=
  mkEngine (fun _ => false) (svg_extent studio) (text_extent studio)
           (tex_extent studio).

(** A narrator figure standing at the origin, for examples. *)
Definition some_narrator : Mobject :=
  Mob 0 default_style (SvgPts narrator_path (centered_box 1 3)) [].

(** ** Equality of boxes up to equality of rationals *)

Definition Beq (a b : Box) : Prop := Peq (lo a) (lo b) /\ Peq (hi a) (hi b).

(** The bubble the constructor returns when the next free identity is
    [n]: the value of [ThoughtBubble], spelled out (see
    [ThoughtBubble_built]). *)
Definition built_bubble (n : nat) (kwargs : Style) : Mobject :=
  let main_bubble := Mob (2 + n) default_style (CirclePts ORIGIN 0.7) [] in
  let trailing (k : nat) (i : Z) :=
    next_to (Mob (k + n) default_style
                 (CirclePts ORIGIN (0.15 - inject_Z i * 0.03)) [])
            main_bubble (padd DOWN LEFT) (-0.1 + inject_Z i * 0.1) in
  Mob n kwargs NoPoints
      [main_bubble;
       Mob (1 + n) default_style NoPoints
           [trailing 3%nat 0%Z; trailing 4%nat 1%Z; trailing 5%nat 2%Z]].

(** A composite whose first child is a lone circle centred at [c]. *)
Definition headed_by (b : Mobject) (i0 : nat) (c : Point) : Prop :=
  exists i st st0 r rest,
    b = Mob i st NoPoints (Mob i0 st0 (CirclePts c r) [] :: rest).

(** ** Induction over a mobject and its family *)

Section Mobject_induction.

Variable P : Mobject -> Prop.
Hypothesis step :
  forall i st o subs, Forall P subs -> P (Mob i st o subs).

Fixpoint Mobject_family_ind (m : Mobject) : P m :=
  match m with
  | Mob i st o subs =>
      step i st o subs
        ((fix all (l : list Mobject) : Forall P l :=
            match l with
            | [] => Forall_nil P
            | x :: rest => Forall_cons x (Mobject_family_ind x) (all rest)
            end) subs)
  end.

End Mobject_induction.

(** ** Identities on the canvas *)

(** The identities of a mobject and of everything below it. *)
Definition family_ids (m : Mobject) : list nat := map mob_id (get_family m).

(** Every object on the canvas, at any depth, was built before identity
    [n] was handed out. *)
Definition older_than (n : nat) (canvas : list Mobject) : Prop :=
  Forall (fun m => Forall (fun i => (i < n)%nat) (family_ids m)) canvas.

(** A scene whose canvas holds only objects that were built in it. *)
Definition well_formed (s : Scene) : Prop :=
  older_than (next_id s) (mobjects s).

(** A computation that ends well, with this value and in this scene. *)
Definition ends {A : Type} (o : Outcome A) (a : A) (s : Scene) : Prop :=
  result o = Ok a /\ final o = s.

(** A computation that is aborted by this error, in this scene. *)
Definition fails {A : Type} (o : Outcome A) (e : Error) (s : Scene) : Prop :=
  result o = Raise e /\ final o = s.

(** The entry of [create_clock], which the class defines. *)
Definition enters_create_clock (e : Event) : bool :=
  match entered e with
  | Some m_create_clock => true
  | _ => false
  end.

(** Two circles whose centres are closer than the sum of their radii. *)
Definition dist2 (p q : Point) : Q :=
  (px p - px q) * (px p - px q) + (py p - py q) * (py p - py q)
  + (pz p - pz q) * (pz p - pz q).

Definition circles_meet (a b : Mobject) : Prop :=
  match center_of a, center_of b, radius_of a, radius_of b with
  | Some c1, Some c2, Some r1, Some r2 =>
      dist2 c1 c2 < (r1 + r2) * (r1 + r2)
  | _, _, _, _ => False
  end.

Definition circles_apart (a b : Mobject) : Prop :=
  match center_of a, center_of b, radius_of a, radius_of b with
  | Some c1, Some c2, Some r1, Some r2 =>
      (r1 + r2) * (r1 + r2) < dist2 c1 c2
  | _, _, _, _ => False
  end.

(** The width and the height of what a mobject covers. *)
Definition width (m : Mobject) : Q :=
  px (get_critical_point m RIGHT) - px (get_critical_point m LEFT).
Definition height (m : Mobject) : Q :=
  py (get_critical_point m UP) - py (get_critical_point m DOWN).

(** The empty [Mobject()] of a [Wait], built with identity [i]. *)
Definition empty_mobject (i : nat) : Mobject :=
  Mob i default_style NoPoints [].

(** * Geometry: what moving does to the critical points *)

Lemma Peq_refl (a : Point) : Peq a a.
Proof. repeat split; reflexivity. Qed.

Lemma Peq_sym (a b : Point) : Peq a b -> Peq b a.
Proof. intros (H1 & H2 & H3). repeat split; symmetry; assumption. Qed.

Lemma Peq_trans (a b c : Point) : Peq a b -> Peq b c -> Peq a c.
Proof.
  intros (H1 & H2 & H3) (K1 & K2 & K3).
  repeat split; etransitivity; eassumption.
Qed.

Lemma Beq_refl (a : Box) : Beq a a.
Proof. split; apply Peq_refl. Qed.

Lemma Beq_trans (a b c : Box) : Beq a b -> Beq b c -> Beq a c.
Proof. intros [H1 H2] [K1 K2]. split; eapply Peq_trans; eassumption. Qed.

Create HintDb geometry.
#[local] Hint Resolve Peq_refl Beq_refl : geometry.

(** Linear arithmetic over the rationals, halving included. *)
Ltac qlra := unfold Qdiv in *; change (/ 2) with (1 # 2) in *; Lqa.lra.

(** Split an equality of points or boxes into its coordinates. *)
Ltac coordinates :=
  unfold Beq, Peq; simpl;
  repeat match goal with |- _ /\ _ => split end.

Lemma Qmin_eq (a a' b b' : Q) : a == a' -> b == b' -> Qmin a b == Qmin a' b'.
Proof. intros -> ->. reflexivity. Qed.

Lemma Qmax_eq (a a' b b' : Q) : a == a' -> b == b' -> Qmax a b == Qmax a' b'.
Proof. intros -> ->. reflexivity. Qed.

Lemma box_join_eq (a a' b b' : Box) :
  Beq a a' -> Beq b b' -> Beq (box_join a b) (box_join a' b').
Proof.
  intros [(A1 & A2 & A3) (A4 & A5 & A6)] [(B1 & B2 & B3) (B4 & B5 & B6)].
  coordinates; (apply Qmin_eq || apply Qmax_eq); assumption.
Qed.

Lemma box_join_shift (v : Point) (a b : Box) :
  Beq (box_join (box_shift v a) (box_shift v b)) (box_shift v (box_join a b)).
Proof.
  coordinates; (apply Q.plus_min_distr_r || apply Q.plus_max_distr_r).
Qed.

Lemma box_shift_eq (v : Point) (a b : Box) :
  Beq a b -> Beq (box_shift v a) (box_shift v b).
Proof.
  intros [(A1 & A2 & A3) (A4 & A5 & A6)].
  coordinates; qlra.
Qed.

Lemma fold_join_eq (l l' : list Box) :
  Forall2 Beq l l' ->
  forall a a', Beq a a' ->
  Beq (fold_left box_join l a) (fold_left box_join l' a').
Proof.
  induction 1 as [|x x' l l' Hx _ IH]; intros a a' Ha; simpl.
  - assumption.
  - apply IH. apply box_join_eq; assumption.
Qed.

Lemma fold_join_shift (v : Point) (l : list Box) :
  forall a,
  Beq (fold_left box_join (map (box_shift v) l) (box_shift v a))
      (box_shift v (fold_left box_join l a)).
Proof.
  induction l as [|x l IH]; intros a; simpl.
  - apply Beq_refl.
  - eapply Beq_trans; [| apply IH].
    apply fold_join_eq.
    + clear. induction l; constructor; auto with geometry.
    + apply box_join_shift.
Qed.

Lemma own_box_shift (v : Point) (o : Outline) :
  Forall2 Beq
    (match own_box (shift_outline v o) with Some b => [b] | None => [] end)
    (map (box_shift v) (match own_box o with Some b => [b] | None => [] end)).
Proof.
  destruct o; simpl; try constructor; try constructor; coordinates;
    try qlra; try (apply Q.plus_min_distr_r || apply Q.plus_max_distr_r).
Qed.

Lemma boxes_shift (v : Point) (m : Mobject) :
  Forall2 Beq (boxes (shift v m)) (map (box_shift v) (boxes m)).
Proof.
  induction m as [i st o subs IH] using Mobject_family_ind.
  simpl. rewrite map_app. apply Forall2_app.
  - apply own_box_shift.
  - induction IH as [|x l Hx _ IHl]; simpl.
    + constructor.
    + rewrite map_app. apply Forall2_app; assumption.
Qed.

Lemma pick_eq (d l l' h h' : Q) :
  l == l' -> h == h' -> pick d l h == pick d l' h'.
Proof. intros Hl Hh. unfold pick. destruct (d ?= 0); qlra. Qed.

Lemma pick_shift (d l h v : Q) : pick d (l + v) (h + v) == pick d l h + v.
Proof. unfold pick. destruct (d ?= 0); qlra. Qed.

Lemma box_critical_point_eq (a b : Box) (d : Point) :
  Beq a b -> Peq (box_critical_point a d) (box_critical_point b d).
Proof.
  intros [(A1 & A2 & A3) (A4 & A5 & A6)].
  coordinates; apply pick_eq; assumption.
Qed.

(** Moving a mobject that has points moves each of its critical points
    by the same vector. *)
Lemma get_critical_point_shift (v : Point) (m : Mobject) (d : Point) :
  boxes m <> [] ->
  Peq (get_critical_point (shift v m) d)
      (padd (get_critical_point m d) v).
Proof.
  intros Hne. unfold get_critical_point, bounding_box.
  pose proof (boxes_shift v m) as H.
  destruct (boxes m) as [|b bs]; [congruence|].
  simpl in H. inversion H as [|x y l l' Hxy Hl]; subst. simpl.
  eapply Peq_trans.
  - apply box_critical_point_eq.
    eapply Beq_trans; [apply fold_join_eq; eassumption |].
    apply fold_join_shift.
  - coordinates; apply pick_shift.
Qed.

Lemma get_center_shift (v : Point) (m : Mobject) :
  boxes m <> [] -> Peq (get_center (shift v m)) (padd (get_center m) v).
Proof. apply get_critical_point_shift. Qed.

(** [move_to] does bring the centre where it is asked to. *)
Lemma get_center_move_to (m : Mobject) (p : Point) :
  boxes m <> [] -> Peq (get_center (move_to m p)) p.
Proof.
  intros H. unfold move_to.
  destruct (get_center_shift (psub p (get_center m)) m H) as (H1 & H2 & H3).
  coordinates; [rewrite H1 | rewrite H2 | rewrite H3]; simpl; qlra.
Qed.

(** * The thought bubble *)

#[local] Arguments Nat.eqb : simpl never.

(** Decide the comparisons of identities that are a known distance apart. *)
Ltac distinct_ids :=
  repeat match goal with
         | |- context [Nat.eqb ?a ?b] =>
             first [ replace (Nat.eqb a b) with false
                       by (symmetry; apply Nat.eqb_neq; lia)
                   | replace (Nat.eqb a b) with true
                       by (symmetry; apply Nat.eqb_eq; lia) ]; cbn
         end.

(** The constructor never fails; it takes six identities and builds the
    main circle first, then the group of the three trailing circles. *)
Lemma ThoughtBubble_built (kwargs : Style) (s : Scene) :
  ThoughtBubble kwargs s =
    mkOutcome (Ok (built_bubble (next_id s) kwargs))
              (mkScene (6 + next_id s) (mobjects s) (camera s) (config s))
              [].
Proof.
  destruct s as [n canvas cam cfg].
  unfold ThoughtBubble. cbn. distinct_ids. reflexivity.
Qed.

(** C3. Every thought bubble the constructor builds, whatever style
    arguments it is given and whatever the scene, has exactly three
    trailing circles; their radii are 0.15 - i * 0.03 for i = 0, 1, 2,
    and each is strictly smaller than the one before. *)
Theorem thought_bubble_trailing_radii (kwargs : Style) (s : Scene) :
  exists bubble r0 r1 r2,
    result (ThoughtBubble kwargs s) = Ok bubble
    /\ map radius_of (trailing_circles bubble) = [Some r0; Some r1; Some r2]
    /\ r0 == 0.15 - inject_Z 0 * 0.03
    /\ r1 == 0.15 - inject_Z 1 * 0.03
    /\ r2 == 0.15 - inject_Z 2 * 0.03
    /\ r1 < r0 /\ r2 < r1.
Proof.
  rewrite ThoughtBubble_built. cbn [result].
  exists (built_bubble (next_id s) kwargs).
  exists (0.15 - inject_Z 0 * 0.03), (0.15 - inject_Z 1 * 0.03),
    (0.15 - inject_Z 2 * 0.03).
  split; [reflexivity |]. split; [reflexivity |].
  repeat (split; [reflexivity |]).
  split; reflexivity.
Qed.

(** C10. Every thought bubble the constructor builds has a first
    top-level child, and that child is the main circle, of radius 0.7: it
    is none of the trailing circles, and the anchor query finds it. *)
Theorem thought_bubble_first_child (kwargs : Style) (s : Scene) :
  exists bubble main anchor,
    result (ThoughtBubble kwargs s) = Ok bubble
    /\ (1 <= List.length (submobjects bubble))%nat
    /\ getitem bubble 0 = Some main
    /\ outline main = CirclePts ORIGIN 0.7
    /\ has_id (mob_id main) (trailing_circles bubble) = false
    /\ forallb (fun t => match radius_of t with
                         | Some r => negb (Qeq_bool r 0.7)
                         | None => false
                         end) (trailing_circles bubble) = true
    /\ get_bubble_center bubble = Some anchor.
Proof.
  rewrite ThoughtBubble_built. cbn [result].
  exists (built_bubble (next_id s) kwargs). do 2 eexists.
  split; [reflexivity |].
  split; [cbn; lia |].
  split; [reflexivity |].
  split; [reflexivity |].
  split; [cbn; distinct_ids; reflexivity |].
  split; reflexivity.
Qed.

(** ** The anchor under moves and scalings *)

Lemma headed_by_shift b i0 c v :
  headed_by b i0 c -> headed_by (shift v b) i0 (padd c v).
Proof.
  intros (i & st & st0 & r & rest & ->). cbn.
  do 5 eexists. reflexivity.
Qed.

Lemma headed_by_scale_about b i0 c k a :
  headed_by b i0 c -> headed_by (scale_about k a b) i0 (scale_point k a c).
Proof.
  intros (i & st & st0 & r & rest & ->). cbn.
  do 5 eexists. reflexivity.
Qed.

(** Whatever is done to the composite, it is still headed by the same
    circle. *)
Lemma headed_by_place b i0 c op :
  headed_by b i0 c -> exists c', headed_by (place b op) i0 c'.
Proof.
  intros H. destruct op; cbn; eexists.
  - apply headed_by_shift; eassumption.
  - apply headed_by_shift; eassumption.
  - apply headed_by_shift; eassumption.
  - apply headed_by_scale_about; eassumption.
Qed.

Lemma headed_by_fold ops :
  forall b i0 c, headed_by b i0 c ->
  exists c', headed_by (fold_left place ops b) i0 c'.
Proof.
  induction ops as [|op ops IH]; intros b i0 c H; simpl.
  - eauto.
  - destruct (headed_by_place b i0 c op H) as (c' & H'). eauto.
Qed.

Lemma built_bubble_headed (n : nat) (kwargs : Style) :
  headed_by (built_bubble n kwargs) (2 + n) ORIGIN.
Proof. do 5 eexists. reflexivity. Qed.

(** The anchor query on such a composite answers the centre of the
    circle. *)
Lemma headed_by_anchor b i0 c :
  headed_by b i0 c ->
  exists main a,
    getitem b 0 = Some main /\ mob_id main = i0
    /\ center_of main = Some c
    /\ get_bubble_center b = Some a /\ Peq a c.
Proof.
  intros (i & st & st0 & r & rest & ->).
  do 2 eexists. cbn.
  split; [reflexivity |]. split; [reflexivity |]. split; [reflexivity |].
  split; [reflexivity |].
  coordinates; unfold pick; cbn; qlra.
Qed.

Lemma Peq_padd a a' v : Peq a a' -> Peq (padd a v) (padd a' v).
Proof. intros (H1 & H2 & H3). coordinates; qlra. Qed.

Lemma Peq_scale_point k g a a' :
  Peq a a' -> Peq (scale_point k g a) (scale_point k g a').
Proof.
  intros (H1 & H2 & H3). coordinates;
    [rewrite H1 | rewrite H2 | rewrite H3]; reflexivity.
Qed.

(** C4. For every thought bubble, however it has been moved and scaled
    since it was built, the anchor query answers the centre of the main
    circle (the child at index 0, the very circle the constructor put
    there); and one more move or scaling carries the anchor exactly as it
    carries any point attached to the shape. *)
Theorem bubble_anchor_is_main_center (kwargs : Style) (s : Scene)
  (ops : list Placement) :
  exists bubble main0,
    result (ThoughtBubble kwargs s) = Ok bubble
    /\ getitem bubble 0 = Some main0
    /\ exists main c a,
         getitem (fold_left place ops bubble) 0 = Some main
         /\ mob_id main = mob_id main0
         /\ center_of main = Some c
         /\ get_bubble_center (fold_left place ops bubble) = Some a
         /\ Peq a c
         /\ forall op, exists a',
              get_bubble_center (place (fold_left place ops bubble) op)
                = Some a'
              /\ Peq a' (carried (fold_left place ops bubble) op a).
Proof.
  rewrite ThoughtBubble_built. cbn [result].
  exists (built_bubble (next_id s) kwargs). eexists.
  split; [reflexivity |]. split; [reflexivity |].
  destruct (headed_by_fold ops _ _ _ (built_bubble_headed (next_id s) kwargs))
    as (c & Hb').
  generalize dependent (fold_left place ops (built_bubble (next_id s) kwargs)).
  intros b' Hb'.
  destruct (headed_by_anchor b' _ c Hb') as (main & a & G1 & G2 & G3 & G4 & G5).
  exists main, c, a. repeat (split; [assumption |]).
  intros op.
  assert (moved : forall v, exists a',
             get_bubble_center (shift v b') = Some a' /\ Peq a' (padd a v)).
  { intros v.
    destruct (headed_by_anchor _ _ _ (headed_by_shift b' _ c v Hb'))
      as (_ & a' & _ & _ & _ & K1 & K2).
    exists a'. split; [assumption |].
    eapply Peq_trans; [eassumption |]. apply Peq_padd, Peq_sym, G5. }
  destruct op as [v | p | t d bf | k]; cbn [place carried].
  - apply moved.
  - apply moved.
  - apply moved.
  - destruct (headed_by_anchor _ _ _
                (headed_by_scale_about b' _ c k (get_center b') Hb'))
      as (_ & a' & _ & _ & _ & K1 & K2).
    exists a'. split; [assumption |].
    eapply Peq_trans; [eassumption |]. apply Peq_scale_point, Peq_sym, G5.
Qed.

(** * The narration helper *)

Lemma Peqb_false (a b : Point) (d : Q) :
  ~ d == 0 -> px a == px b + d -> Peqb b a = false.
Proof.
  intros Hd H. unfold Peqb.
  destruct (Qeq_bool (px b) (px a)) eqn:Hx; [| reflexivity].
  apply Qeq_bool_eq in Hx. exfalso. apply Hd. qlra.
Qed.

(** C5. What [show_narration] does, for every narrator figure, caption
    and scene: it builds a thought bubble, scales it and puts it above the
    narrator, plays bubble and caption in as one batch, waits three
    seconds and plays both out as one batch.  The caption, though, is
    centred on the centre of the whole bubble, not on the anchor: the
    anchor (the centre of the main circle) lies 0.098 further right and
    0.098 further up. *)
Theorem show_narration_caption_off_anchor (E : Engine) (narrator : Mobject)
  (text : string) (s : Scene) :
  exists bubble caption anchor,
    result (show_narration E narrator text s) = Ok tt
    /\ emitted (show_narration E narrator text s) =
         [Enter m_show_narration (mobjects s);
          Play [Create bubble; Write caption] None;
          Wait 3;
          Play [FadeOut bubble; FadeOut caption] None]
    /\ Peq (get_critical_point bubble DOWN)
           (padd (get_critical_point narrator UP) (pscale 0.25 UP))
    /\ get_bubble_center bubble = Some anchor
    /\ Peq (get_center caption) (get_center bubble)
    /\ Peq anchor (padd (get_center caption) (mkPoint 0.098 0.098 0))
    /\ Peqb (get_center caption) anchor = false.
Proof.
  unfold show_narration, bind, enter.
  cbn -[ThoughtBubble next_to scale move_to get_center].
  rewrite ThoughtBubble_built.
  cbn -[built_bubble next_to scale move_to get_center].
  set (B0 := built_bubble (next_id s) default_style).
  set (B := scale 0.7 B0).
  set (v := padd (psub (get_critical_point narrator UP)
                       (get_critical_point B (pneg UP)))
                 (pscale DEFAULT_MOBJECT_TO_MOBJECT_BUFFER UP)).
  set (bubble := next_to B narrator UP DEFAULT_MOBJECT_TO_MOBJECT_BUFFER).
  set (caption0 := Mob _ _ (TextPts text 24 _) []).
  set (caption := move_to caption0 (get_center bubble)).
  assert (HB : boxes B <> []) by (cbn; discriminate).
  assert (centre : Peq (get_center caption) (get_center bubble))
    by (apply get_center_move_to; cbn; discriminate).
  assert (moved : Peq (get_center bubble) (padd (get_center B) v))
    by (apply get_center_shift, HB).
  assert (below : Peq (get_critical_point bubble DOWN)
                      (padd (get_critical_point B DOWN) v))
    by (apply get_critical_point_shift, HB).
  assert (HG : Peq (get_center B) (mkPoint (-0.14) (-0.14) 0))
    by (coordinates; vm_compute; reflexivity).
  assert (HD : Peq (get_critical_point B DOWN)
                   (get_critical_point B (pneg UP)))
    by (coordinates; vm_compute; reflexivity).
  assert (HS : Peq (scale_point 0.7 (get_center B0) ORIGIN)
                   (mkPoint (-0.042) (-0.042) 0))
    by (coordinates; vm_compute; reflexivity).
  assert (headed : headed_by bubble (2 + next_id s)
                     (padd (scale_point 0.7 (get_center B0) ORIGIN) v))
    by (apply headed_by_shift, headed_by_scale_about, built_bubble_headed).
  destruct (headed_by_anchor _ _ _ headed)
    as (_ & anchor & _ & _ & _ & A1 & A2).
  clear headed.
  exists bubble, caption, anchor.
  split; [reflexivity |]. split; [reflexivity |].
  assert (Hv : Peq v (padd (psub (get_critical_point narrator UP)
                                 (get_critical_point B (pneg UP)))
                           (pscale 0.25 UP)))
    by apply Peq_refl.
  clearbody v caption bubble B.
  generalize dependent (scale_point 0.7 (get_center B0) ORIGIN).
  intros h HS A2.
  destruct A2 as (a1 & a2 & a3), centre as (e1 & e2 & e3),
    moved as (m1 & m2 & m3), HG as (g1 & g2 & g3), HS as (s1 & s2 & s3),
    HD as (d1 & d2 & d3), below as (b1 & b2 & b3), Hv as (v1 & v2 & v3).
  unfold padd, psub, pscale in *. cbn [px py pz UP] in *.
  split; [unfold Peq; cbn [px py pz]; repeat split; qlra |].
  split; [exact A1 |].
  split; [unfold Peq; repeat split; assumption |].
  split; [unfold Peq; cbn [px py pz]; repeat split; qlra |].
  apply (Peqb_false _ _ 0.098); [intros H; discriminate H | qlra].
Qed.

Lemma bind_run {A B : Type} (c : M A) (k : A -> M B) (s s1 : Scene) (a : A)
  (w : list Event) :
  c s = mkOutcome (Ok a) s1 w ->
  bind c k s
  = mkOutcome (result (k a s1)) (final (k a s1)) (w ++ emitted (k a s1)).
Proof. intros H. unfold bind. rewrite H. reflexivity. Qed.

(** X1. The sibling of [show_narration]: [introduce_narrator] does centre its
    caption on the anchor, and never meets a bubble without an item 0. *)
Lemma introduce_narrator_caption_on_anchor (E : Engine) (narrator : Mobject)
  (s : Scene) :
  exists bubble caption anchor,
    result (introduce_narrator E narrator s) = Ok tt
    /\ emitted (introduce_narrator E narrator s) =
         [Enter m_introduce_narrator (mobjects s);
          Play [Create bubble; Write caption] None;
          Wait 2;
          Play [FadeOut bubble; FadeOut caption] None]
    /\ get_bubble_center bubble = Some anchor
    /\ Peq (get_center caption) anchor.
Proof.
  unfold introduce_narrator.
  rewrite (bind_run _ _ s s tt [Enter m_introduce_narrator (mobjects s)])
    by reflexivity.
  rewrite (bind_run _ _ s _ _ [] (ThoughtBubble_built default_style s)).
  cbv beta zeta.
  set (B0 := built_bubble (next_id s) default_style).
  set (bubble := next_to (scale 0.7 B0) narrator UP
                         DEFAULT_MOBJECT_TO_MOBJECT_BUFFER).
  assert (headed : exists c, headed_by bubble (2 + next_id s) c).
  { eexists. apply headed_by_shift, headed_by_scale_about, built_bubble_headed. }
  destruct headed as (c & headed).
  destruct (headed_by_anchor _ _ _ headed)
    as (_ & anchor & _ & _ & _ & A1 & _).
  clear headed. clearbody bubble. clear B0.
  erewrite bind_run by (unfold Text, new_mobject; reflexivity).
  rewrite A1.
  set (caption0 := Mob _ _ (TextPts _ 24 _) []).
  assert (Hcap : boxes caption0 <> []) by (cbn; discriminate).
  clearbody caption0.
  exists bubble, (move_to caption0 anchor), anchor.
  split; [reflexivity |]. split; [reflexivity |].
  split; [exact A1 |].
  apply get_center_move_to, Hcap.
Qed.

(** * The driver runs the stage methods *)

Lemma bind_trace {A B : Type} (c : M A) (k : A -> M B) (s : Scene) (a : A) :
  result (c s) = Ok a ->
  bind c k s
  = mkOutcome (result (k a (final (c s)))) (final (k a (final (c s))))
      (emitted (c s) ++ emitted (k a (final (c s)))).
Proof. intros H. unfold bind. cbv zeta. rewrite H. reflexivity. Qed.

Lemma show_title_returns (E : Engine) (s : Scene) :
  result (show_title E s) = Ok tt.
Proof. reflexivity. Qed.

Lemma create_narrator_returns (E : Engine) (s : Scene) :
  file_exists E narrator_path = true ->
  exists narrator, result (create_narrator E s) = Ok narrator.
Proof.
  intros H. unfold create_narrator, Narrator, SVGMobject. rewrite H.
  eexists. reflexivity.
Qed.

Lemma introduce_narrator_returns (E : Engine) (narrator : Mobject)
  (s : Scene) :
  result (introduce_narrator E narrator s) = Ok tt.
Proof. vm_compute. reflexivity. Qed.

Lemma special_relativity_chapter_returns (E : Engine) (narrator : Mobject)
  (s : Scene) :
  result (special_relativity_chapter E narrator s) = Ok tt.
Proof. vm_compute. reflexivity. Qed.

Lemma general_relativity_chapter_returns (E : Engine) (narrator : Mobject)
  (s : Scene) :
  result (general_relativity_chapter E narrator s) = Ok tt.
Proof. vm_compute. reflexivity. Qed.

Lemma show_conclusion_returns (E : Engine) (s : Scene) :
  result (show_conclusion E s) = Ok tt.
Proof. reflexivity. Qed.

(** The driver, step by step: its settings, then the stage methods and the
    narrator between the first two, each on the scene the one before it
    left. *)
Lemma construct_unrolled (E : Engine) (s : Scene) (narrator : Mobject) :
  let s1 := mkScene (next_id s) (mobjects s)
              (mkCamera (70 * DEGREES) (-30 * DEGREES) "#1a1a1a")
              (mkConfig 16 9 1920 1080) in
  let s2 := final (play [FadeIn narrator None] None
                     (final (create_narrator E (final (show_title E s1))))) in
  let s3 := final (introduce_narrator E narrator s2) in
  let s4 := final (special_relativity_chapter E narrator s3) in
  let s5 := final (general_relativity_chapter E narrator s4) in
  result (create_narrator E (final (show_title E s1))) = Ok narrator ->
  construct E s
  = mkOutcome (result (show_conclusion E s5)) (final (show_conclusion E s5))
      ([Enter m_construct (mobjects s);
        Enter m_configure_global_settings (mobjects s)]
       ++ emitted (show_title E s1)
       ++ (emitted (create_narrator E (final (show_title E s1)))
           ++ [Play [FadeIn narrator None] None])
       ++ emitted (introduce_narrator E narrator s2)
       ++ emitted (special_relativity_chapter E narrator s3)
       ++ emitted (general_relativity_chapter E narrator s4)
       ++ emitted (show_conclusion E s5)).
Proof.
  intros s1 s2 s3 s4 s5 Rn. unfold construct.
  rewrite (bind_trace (enter m_construct) _ s tt eq_refl).
  rewrite (bind_trace (set_camera_orientation _ _) _ _ tt eq_refl).
  rewrite (bind_trace configure_global_settings _ _ tt eq_refl).
  rewrite (bind_trace (set_background_color _) _ _ tt eq_refl).
  change (final (set_background_color "#1a1a1a"
            (final (configure_global_settings
               (final (set_camera_orientation (70 * DEGREES) (-30 * DEGREES)
                  (final (enter m_construct s))))))))
    with s1.
  rewrite (bind_trace (show_title E) _ s1 tt (show_title_returns E s1)).
  rewrite (bind_trace (create_narrator E) _ _ narrator Rn).
  rewrite (bind_trace (play _ _) _ _ tt eq_refl).
  fold s2.
  rewrite (bind_trace (introduce_narrator E narrator) _ s2 tt
             (introduce_narrator_returns E narrator s2)).
  fold s3.
  rewrite (bind_trace (special_relativity_chapter E narrator) _ s3 tt
             (special_relativity_chapter_returns E narrator s3)).
  fold s4.
  rewrite (bind_trace (general_relativity_chapter E narrator) _ s4 tt
             (general_relativity_chapter_returns E narrator s4)).
  fold s5.
  cbn [result final emitted].
  f_equal.
  rewrite <- (app_assoc (emitted (create_narrator E (final (show_title E s1))))).
  change (emitted (enter m_construct s)) with [Enter m_construct (mobjects s)].
  change (emitted (set_camera_orientation (70 * DEGREES) (-30 * DEGREES)
                     (final (enter m_construct s))))
    with (@nil Event).
  change (emitted (configure_global_settings
                     (final (set_camera_orientation (70 * DEGREES)
                               (-30 * DEGREES) (final (enter m_construct s))))))
    with [Enter m_configure_global_settings (mobjects s)].
  change (emitted (set_background_color "#1a1a1a"
                     (final (configure_global_settings
                        (final (set_camera_orientation (70 * DEGREES)
                                  (-30 * DEGREES)
                                  (final (enter m_construct s))))))))
    with (@nil Event).
  change (emitted (play [FadeIn narrator None] None
                     (final (create_narrator E (final (show_title E s1))))))
    with [Play [FadeIn narrator None] None].
  cbn [app]. reflexivity.
Qed.

Lemma batches_of_the_stages (E : Engine) (narrator : Mobject)
  (a b c d e : Scene) :
  map batches_played
    [emitted (show_title E a); emitted (introduce_narrator E narrator b);
     emitted (special_relativity_chapter E narrator c);
     emitted (general_relativity_chapter E narrator d);
     emitted (show_conclusion E e)]
  = [2; 2; 9; 12; 2]%nat.
Proof. vm_compute. reflexivity. Qed.

(** * The run *)

(** C1. When the narrator image is there, a run of the driver from any
    scene completes and enters exactly the five stages Title,
    NarratorIntro, SpecialRelativityChapter, GeneralRelativityChapter,
    Conclusion, once each and in that order; so any two runs, and in
    particular a run and the run that follows it, go through the same
    sequence of stages.  And the stages are run, not only entered: what
    the run sends to the renderer is, after the settings, all that
    [show_title] sends, then the making and the fade-in of the narrator,
    then all that [introduce_narrator], [special_relativity_chapter],
    [general_relativity_chapter] and [show_conclusion] send, each started
    on the scene the one before it left and each returning normally; no
    stage is entered outside these five runs, and the run ends in the
    scene [show_conclusion] leaves.  The five stages play two, two, nine,
    twelve and two batches. *)
Theorem stage_order (E : Engine) (s s' : Scene) :
  file_exists E narrator_path = true ->
  result (construct E s) = Ok tt
  /\ stage_sequence (emitted (construct E s)) = five_stages
  /\ NoDup (stage_sequence (emitted (construct E s)))
  /\ stage_sequence (emitted (construct E s'))
     = stage_sequence (emitted (construct E s))
  /\ stage_sequence (emitted (construct E (final (construct E s))))
     = stage_sequence (emitted (construct E s))
  /\ exists narrator before between s1 s2 s3 s4 s5,
       emitted (construct E s)
       = before
         ++ emitted (show_title E s1)
         ++ between
         ++ emitted (introduce_narrator E narrator s2)
         ++ emitted (special_relativity_chapter E narrator s3)
         ++ emitted (general_relativity_chapter E narrator s4)
         ++ emitted (show_conclusion E s5)
       /\ before = [Enter m_construct (mobjects s);
                    Enter m_configure_global_settings (mobjects s)]
       /\ s1 = mkScene (next_id s) (mobjects s)
                 (mkCamera (70 * DEGREES) (-30 * DEGREES) "#1a1a1a")
                 (mkConfig 16 9 1920 1080)
       /\ result (show_title E s1) = Ok tt
       /\ result (create_narrator E (final (show_title E s1))) = Ok narrator
       /\ between
          = emitted (create_narrator E (final (show_title E s1)))
            ++ [Play [FadeIn narrator None] None]
       /\ stage_sequence between = []
       /\ s2 = final (play [FadeIn narrator None] None
                        (final (create_narrator E (final (show_title E s1)))))
       /\ result (introduce_narrator E narrator s2) = Ok tt
       /\ s3 = final (introduce_narrator E narrator s2)
       /\ result (special_relativity_chapter E narrator s3) = Ok tt
       /\ s4 = final (special_relativity_chapter E narrator s3)
       /\ result (general_relativity_chapter E narrator s4) = Ok tt
       /\ s5 = final (general_relativity_chapter E narrator s4)
       /\ result (show_conclusion E s5) = Ok tt
       /\ final (construct E s) = final (show_conclusion E s5)
       /\ map batches_played
            [emitted (show_title E s1);
             emitted (introduce_narrator E narrator s2);
             emitted (special_relativity_chapter E narrator s3);
             emitted (general_relativity_chapter E narrator s4);
             emitted (show_conclusion E s5)]
          = [2; 2; 9; 12; 2]%nat.
Proof.
  intros H.
  assert (run : forall s0,
             result (construct E s0) = Ok tt
             /\ stage_sequence (emitted (construct E s0)) = five_stages).
  { intros s0.
    unfold construct, create_narrator, Narrator, SVGMobject.
    rewrite H. split; vm_compute; reflexivity. }
  destruct (run s) as [R1 R2].
  split; [exact R1 |]. split; [exact R2 |].
  split.
  { rewrite R2. unfold five_stages.
    repeat (constructor; [simpl; intuition discriminate |]). constructor. }
  split; [rewrite R2; apply run |].
  split; [rewrite R2; apply run |].
  clear run R1 R2.
  set (s1 := mkScene (next_id s) (mobjects s)
               (mkCamera (70 * DEGREES) (-30 * DEGREES) "#1a1a1a")
               (mkConfig 16 9 1920 1080)).
  destruct (create_narrator_returns E (final (show_title E s1)) H)
    as (narrator & Rn).
  pose proof (construct_unrolled E s narrator Rn) as U. cbv zeta in U.
  fold s1 in U.
  set (s2 := final (play [FadeIn narrator None] None
                      (final (create_narrator E (final (show_title E s1))))))
    in *.
  set (s3 := final (introduce_narrator E narrator s2)) in *.
  set (s4 := final (special_relativity_chapter E narrator s3)) in *.
  set (s5 := final (general_relativity_chapter E narrator s4)) in *.
  exists narrator,
    [Enter m_construct (mobjects s);
     Enter m_configure_global_settings (mobjects s)],
    (emitted (create_narrator E (final (show_title E s1)))
     ++ [Play [FadeIn narrator None] None]),
    s1, s2, s3, s4, s5.
  split; [rewrite U; reflexivity |].
  split; [reflexivity |]. split; [reflexivity |].
  split; [apply show_title_returns |].
  split; [exact Rn |]. split; [reflexivity |].
  split.
  { unfold stage_sequence, stage_entries.
    rewrite flat_map_app. cbn [flat_map app map].
    unfold create_narrator, Narrator, SVGMobject. rewrite H.
    reflexivity. }
  split; [reflexivity |].
  split; [apply introduce_narrator_returns |].
  split; [reflexivity |].
  split; [apply special_relativity_chapter_returns |].
  split; [reflexivity |].
  split; [apply general_relativity_chapter_returns |].
  split; [reflexivity |].
  split; [apply show_conclusion_returns |].
  split; [rewrite U; reflexivity |].
  apply batches_of_the_stages.
Qed.

Lemma stage_order_witness :
  file_exists studio narrator_path = true
  /\ stage_sequence (emitted (construct studio fresh_scene)) = five_stages.
Proof.
  split; [reflexivity |].
  exact (proj1 (proj2 (stage_order studio fresh_scene fresh_scene eq_refl))).
Defined.

(** C8. Configuring the frame twice leaves the scene, camera and global
    configuration exactly as configuring it once does: 16 by 9 units,
    1920 by 1080 pixels, background #1a1a1a. *)
Theorem configure_global_settings_idempotent (s : Scene) :
  final (configure_global_settings (final (configure_global_settings s)))
  = final (configure_global_settings s)
  /\ config (final (configure_global_settings s)) = mkConfig 16 9 1920 1080
  /\ background_color (camera (final (configure_global_settings s)))
     = "#1a1a1a"%string.
Proof.
  destruct s as [n canvas [ph th bg] cfg]. repeat split.
Qed.

(** The claim as the text has it fails: in a complete run the closing
    stage finds more than the narrator on the canvas. *)
Lemma conclusion_starts_on_a_used_canvas :
  result (construct studio fresh_scene) = Ok tt
  /\ every_stage_starts_clean (emitted (construct studio fresh_scene)) = false.
Proof. split; vm_compute; reflexivity. Qed.

(** C2, as the script has it.  What there is to see on the canvas (the
    empty mobjects the waits leave behind set aside) in a run from an
    empty canvas, with the narrator image there: Title finds nothing;
    NarratorIntro, SpecialRelativityChapter and GeneralRelativityChapter
    find the narrator alone, so every stage before them has faded out all
    it brought; the GeneralRelativityChapter fades out its title and the
    field equation only, so Conclusion finds, besides the narrator, the
    warped surface, the sphere (the mass, by then morphed into the event
    horizon), the five wave circles, the accretion disk and the five
    photon paths; and Conclusion fades out its own text, leaving those
    same objects at the end of the run.  Beside them the five stages
    find none, one, two, three and five of the empty mobjects of the
    waits before them. *)
Theorem canvas_at_stage_entry (E : Engine) (cam : Camera) (cfg : Config) :
  file_exists E narrator_path = true ->
  let run := construct E (mkScene 0 [] cam cfg) in
  let narrator := KSvg narrator_path in
  let leftover :=
    [narrator; KSurface; KSphere; KCircle; KCircle; KCircle; KCircle;
     KCircle; KAnnulus; KCurve; KCurve; KCurve; KCurve; KCurve] in
  map (fun e => (fst e, map kind_of (drawn (snd e))))
      (stage_entries (emitted run))
  = [(Title, []);
     (NarratorIntro, [narrator]);
     (SpecialRelativityChapter, [narrator]);
     (GeneralRelativityChapter, [narrator]);
     (Conclusion, leftover)]
  /\ map kind_of (drawn (mobjects (final run))) = leftover
  /\ map (fun e => List.length (filter (fun m => negb (is_drawn m)) (snd e)))
         (stage_entries (emitted run))
     = [0; 1; 2; 3; 5]%nat.
Proof.
  intros H.
  unfold construct, create_narrator, Narrator, SVGMobject.
  rewrite H. repeat split; vm_compute; reflexivity.
Qed.

Lemma canvas_at_stage_entry_witness :
  file_exists studio narrator_path = true
  /\ map kind_of
        (drawn
           (mobjects
              (final (construct studio
                        (mkScene 0 [] (camera fresh_scene)
                           (config fresh_scene))))))
     = [KSvg narrator_path; KSurface; KSphere; KCircle; KCircle; KCircle;
        KCircle; KCircle; KAnnulus; KCurve; KCurve; KCurve; KCurve; KCurve].
Proof.
  split; [reflexivity |].
  exact (proj1 (proj2 (canvas_at_stage_entry studio (camera fresh_scene)
                         (config fresh_scene) eq_refl))).
Defined.

(** The claim as the text has it fails: with no image file the run does
    fail, but only after the title card has been faded out. *)
Lemma title_fades_out_before_the_failure :
  ~ fails_before_title_fade_out bare_studio fresh_scene.
Proof.
  assert (played : existsb (fades_out_text title_text)
                     (emitted (construct bare_studio fresh_scene)) = true)
    by (vm_compute; reflexivity).
  unfold fails_before_title_fade_out. intros [_ H].
  rewrite played in H. discriminate H.
Qed.

(** C6, as the script has it.  With the narrator image there, a run from
    any scene completes: it goes through the five stages and ends with the
    closing text faded out.  With the image missing, the run is aborted by
    the image loader's error, and by nothing else; by then the Title stage
    is over, its fade-out included, and that fade-out is the last batch
    played: NarratorIntro is never entered and the narrator is never
    animated. *)
Theorem run_with_and_without_asset (E : Engine) (s : Scene) :
  let run := construct E s in
  if file_exists E narrator_path then
    result run = Ok tt
    /\ stage_sequence (emitted run) = five_stages
    /\ fades_out_text closing_text (last (emitted run) (Wait 0)) = true
  else
    result run = Raise (AssetNotFound narrator_path)
    /\ stage_sequence (emitted run) = [Title]
    /\ entered (last (emitted run) (Wait 0)) = Some m_create_narrator
    /\ fades_out_text title_text
         (last (removelast (emitted run)) (Wait 0)) = true
    /\ existsb animates_narrator (emitted run) = false.
Proof.
  cbv zeta.
  unfold construct, create_narrator, Narrator, SVGMobject.
  destruct (file_exists E narrator_path).
  - repeat split; vm_compute; reflexivity.
  - split; [vm_compute; reflexivity |].
    split; [vm_compute; reflexivity |].
    split; [vm_compute; reflexivity |].
    split; vm_compute; reflexivity.
Qed.

(** * The two formulas handed to the engine *)

Local Open Scope R_scope.

(** C9. [create_photon_paths] never fails and returns a group of exactly
    five paths, five distinct objects that are one and the same curve:
    each is drawn over t in [0, 2 pi] and is at
    (1.5 cos t, 1.5 sin t, 0.5 sin 2t) for every t. *)
Theorem photon_paths_coincide (s : Scene) :
  exists group,
    result (create_photon_paths s) = Ok group
    /\ List.length (split group) = 5%nat
    /\ NoDup (map mob_id (split group))
    /\ Forall (fun path =>
                 t_range_of path = Some (0, 2 * PI)
                 /\ forall t,
                      curve_at path t
                      = Some (1.5 * cos t, 1.5 * sin t, 0.5 * sin (2 * t)))
              (split group)
    /\ Forall (fun path =>
                 Forall (fun other =>
                           forall t, curve_at path t = curve_at other t)
                        (split group))
              (split group).
Proof.
  destruct s as [n canvas cam cfg].
  unfold create_photon_paths. cbn. distinct_ids.
  eexists. split; [reflexivity |]. cbn.
  split; [reflexivity |].
  split.
  - repeat (constructor; [simpl; intros H; intuition lia |]). constructor.
  - split; repeat constructor.
Qed.

Lemma exp_neg_small (x eps : R) :
  0 < eps -> / eps < x -> 0 < exp (- x) < eps.
Proof.
  intros Heps Hx.
  assert (Hinv : 0 < / eps) by (apply Rinv_0_lt_compat; exact Heps).
  assert (Hpos : 0 < x) by lra.
  split; [apply exp_pos |].
  rewrite exp_Ropp.
  assert (Hexp : x < exp x).
  { assert (Hne : x <> 0) by lra. pose proof (exp_ineq1 x Hne). lra. }
  rewrite <- (Rinv_inv eps).
  apply Rinv_lt_contravar; [| lra].
  apply Rmult_lt_0_compat; [exact Hinv | apply exp_pos].
Qed.

(** C7. The surface built by [create_spacetime_curvature] has height
    exactly 0.5 over (0, 0); and its height tends to 0 as u^2 + v^2 grows:
    it is positive and below any eps > 0 as soon as u^2 + v^2 exceeds
    1 / eps. *)
Theorem curvature_height (s : Scene) (eps u v : R) :
  0 < eps -> / eps < u ^ 2 + v ^ 2 ->
  exists mass grid z,
    result (create_spacetime_curvature s) = Ok (mass, grid)
    /\ surface_at grid 0 0 = Some (0, 0, 0.5)
    /\ surface_at grid u v = Some (u, v, z)
    /\ z = 0.5 * exp (- (u ^ 2 + v ^ 2))
    /\ 0 < z < eps.
Proof.
  intros Heps Hfar.
  destruct s as [n canvas cam cfg].
  unfold create_spacetime_curvature. cbn.
  do 3 eexists. split; [reflexivity |]. cbn.
  split.
  - do 2 f_equal. replace (0 * (0 * 1) + 0 * (0 * 1)) with 0 by ring.
    rewrite Ropp_0, exp_0. lra.
  - split; [reflexivity |]. split; [reflexivity |].
    pose proof (exp_neg_small (u ^ 2 + v ^ 2) eps Heps Hfar) as [H1 H2].
    cbn in H1, H2. lra.
Qed.

Lemma curvature_height_witness :
  exists mass grid z,
    result (create_spacetime_curvature fresh_scene) = Ok (mass, grid)
    /\ surface_at grid 2 0 = Some (2, 0, z)
    /\ 0 < z < 1.
Proof.
  destruct (curvature_height fresh_scene 1 2 0) as (mass & grid & z & H).
  - lra.
  - lra.
  - exists mass, grid, z. intuition.
Defined.

(** * What a batch does to the canvas *)

Lemma mob_id_shift (v : Point) (m : Mobject) : mob_id (shift v m) = mob_id m.
Proof. destruct m. reflexivity. Qed.

Lemma mob_id_scale_about (k : Q) (a : Point) (m : Mobject) :
  mob_id (scale_about k a m) = mob_id m.
Proof. destruct m. reflexivity. Qed.

Lemma flat_map_ids_eq (f : Mobject -> Mobject) (l : list Mobject) :
  Forall (fun m => family_ids (f m) = family_ids m) l ->
  map mob_id (flat_map get_family (map f l))
  = map mob_id (flat_map get_family l).
Proof.
  induction 1 as [|x l Hx _ IH]; simpl; [reflexivity |].
  rewrite !map_app. unfold family_ids in Hx. rewrite Hx, IH. reflexivity.
Qed.

(** Moving and scaling keep every identity of the family. *)
Lemma family_ids_shift (v : Point) (m : Mobject) :
  family_ids (shift v m) = family_ids m.
Proof.
  induction m as [i st o subs IH] using Mobject_family_ind.
  unfold family_ids. simpl. f_equal. apply flat_map_ids_eq, IH.
Qed.

Lemma family_ids_scale_about (k : Q) (a : Point) (m : Mobject) :
  family_ids (scale_about k a m) = family_ids m.
Proof.
  induction m as [i st o subs IH] using Mobject_family_ind.
  unfold family_ids. simpl. f_equal. apply flat_map_ids_eq, IH.
Qed.

Lemma family_ids_next_to m t d b : family_ids (next_to m t d b) = family_ids m.
Proof. apply family_ids_shift. Qed.

Lemma family_ids_move_to m p : family_ids (move_to m p) = family_ids m.
Proof. apply family_ids_shift. Qed.

Lemma family_ids_scale k m : family_ids (scale k m) = family_ids m.
Proof. apply family_ids_scale_about. Qed.

Lemma family_ids_restyle f m : family_ids (restyle f m) = family_ids m.
Proof.
  induction m as [i st o subs IH] using Mobject_family_ind.
  unfold family_ids. simpl. f_equal. apply flat_map_ids_eq, IH.
Qed.

Lemma family_ids_head (m : Mobject) :
  exists rest, family_ids m = mob_id m :: rest.
Proof. destruct m. unfold family_ids. simpl. eauto. Qed.

Lemma has_id_ids (i : nat) (l : list Mobject) :
  has_id i l = existsb (fun j => Nat.eqb j i) (map mob_id l).
Proof.
  unfold has_id. induction l as [|x l IH]; simpl; [reflexivity |].
  rewrite IH. reflexivity.
Qed.

Lemma on_canvas_ids (canvas : list Mobject) (m : Mobject) :
  on_canvas canvas m
  = existsb (fun j => Nat.eqb j (mob_id m)) (flat_map family_ids canvas).
Proof.
  unfold on_canvas. rewrite has_id_ids. f_equal.
  induction canvas as [|x l IH]; simpl; [reflexivity |].
  rewrite map_app, IH. reflexivity.
Qed.

Lemma older_than_ids (n : nat) (canvas : list Mobject) :
  older_than n canvas ->
  Forall (fun i => (i < n)%nat) (flat_map family_ids canvas).
Proof.
  induction 1 as [|x l Hx _ IH]; simpl; [constructor |].
  apply Forall_app. split; assumption.
Qed.

Lemma older_than_top (n : nat) (canvas : list Mobject) :
  older_than n canvas -> Forall (fun m => (mob_id m < n)%nat) canvas.
Proof.
  induction 1 as [|x l Hx _ IH]; constructor; [| assumption].
  destruct (family_ids_head x) as (rest & E). rewrite E in Hx.
  inversion Hx; assumption.
Qed.

Lemma older_than_le (n n' : nat) (canvas : list Mobject) :
  (n <= n')%nat -> older_than n canvas -> older_than n' canvas.
Proof.
  intros Hle H. unfold older_than in *.
  eapply Forall_impl; [| exact H]. intros m Hm.
  eapply Forall_impl; [| exact Hm]. intros i Hi. simpl in Hi. lia.
Qed.

Lemma existsb_eqb_fresh (i : nat) (l : list nat) (n : nat) :
  Forall (fun j => (j < n)%nat) l -> (n <= i)%nat ->
  existsb (fun j => Nat.eqb j i) l = false.
Proof.
  induction 1 as [|x l Hx _ IH]; intros Hi; simpl; [reflexivity |].
  rewrite IH by assumption.
  replace (Nat.eqb x i) with false; [reflexivity |].
  symmetry. apply Nat.eqb_neq. lia.
Qed.

(** An object built after everything on the canvas is not on it. *)
Lemma scene_add_fresh (n : nat) (canvas : list Mobject) (m : Mobject) :
  older_than n canvas -> (n <= mob_id m)%nat ->
  scene_add canvas m = canvas ++ [m].
Proof.
  intros H Hm. unfold scene_add. rewrite on_canvas_ids.
  rewrite (existsb_eqb_fresh _ _ n); [reflexivity | | assumption].
  apply older_than_ids, H.
Qed.

Lemma scene_add_fresh_after (n : nat) (canvas l : list Mobject)
  (m : Mobject) :
  older_than n canvas -> (n <= mob_id m)%nat ->
  existsb (fun j => Nat.eqb j (mob_id m)) (flat_map family_ids l) = false ->
  scene_add (canvas ++ l) m = canvas ++ l ++ [m].
Proof.
  intros H Hm Hl. unfold scene_add. rewrite on_canvas_ids.
  rewrite flat_map_app, existsb_app, Hl.
  rewrite (existsb_eqb_fresh _ _ n);
    [rewrite <- app_assoc; reflexivity | | assumption].
  apply older_than_ids, H.
Qed.

Lemma scene_remove_older (n : nat) (canvas : list Mobject) (m : Mobject) :
  older_than n canvas -> (n <= mob_id m)%nat ->
  scene_remove canvas m = canvas.
Proof.
  intros H Hm. apply older_than_top in H. unfold scene_remove.
  induction H as [|x l Hx _ IH]; simpl; [reflexivity |].
  replace (Nat.eqb (mob_id x) (mob_id m)) with false
    by (symmetry; apply Nat.eqb_neq; lia).
  simpl. rewrite IH. reflexivity.
Qed.

Lemma scene_remove_app (l l' : list Mobject) (m : Mobject) :
  scene_remove (l ++ l') m = scene_remove l m ++ scene_remove l' m.
Proof. unfold scene_remove. apply filter_app. Qed.

(** Replacing the object of one identity leaves alone every older
    object. *)
Lemma replace_older (n : nat) (canvas : list Mobject) (i : nat)
  (by_this : Mobject) :
  older_than n canvas -> (n <= i)%nat ->
  map (fun x => if Nat.eqb (mob_id x) i then by_this else x) canvas = canvas.
Proof.
  intros H Hm. apply older_than_top in H.
  induction H as [|x l Hx _ IH]; simpl; [reflexivity |].
  replace (Nat.eqb (mob_id x) i) with false
    by (symmetry; apply Nat.eqb_neq; lia).
  rewrite IH. reflexivity.
Qed.

Lemma play_run (batch : list Animation) (run_time : option Q) (s : Scene) :
  play batch run_time s
  = mkOutcome (Ok tt)
      (mkScene (next_id s)
         (fold_left settle batch
            (fold_left scene_add (map anim_mobject batch) (mobjects s)))
         (camera s) (config s))
      [Play batch run_time].
Proof. reflexivity. Qed.

Lemma built_bubble_ids (n : nat) (kwargs : Style) :
  family_ids (built_bubble n kwargs)
  = [n; 2 + n; 1 + n; 3 + n; 4 + n; 5 + n]%nat.
Proof. reflexivity. Qed.

Lemma mob_id_built_bubble (n : nat) (kwargs : Style) :
  mob_id (built_bubble n kwargs) = n.
Proof. reflexivity. Qed.

Lemma mob_id_empty_mobject (i : nat) : mob_id (empty_mobject i) = i.
Proof. reflexivity. Qed.

Lemma family_ids_empty_mobject (i : nat) : family_ids (empty_mobject i) = [i].
Proof. reflexivity. Qed.

Lemma mob_id_next_to m t d b : mob_id (next_to m t d b) = mob_id m.
Proof. apply mob_id_shift. Qed.

Lemma mob_id_move_to m p : mob_id (move_to m p) = mob_id m.
Proof. apply mob_id_shift. Qed.

Lemma mob_id_scale k m : mob_id (scale k m) = mob_id m.
Proof. apply mob_id_scale_about. Qed.

Lemma mob_id_restyle f m : mob_id (restyle f m) = mob_id m.
Proof. destruct m. reflexivity. Qed.

Lemma Text_run (E : Engine) (text : string) (font_size : Z) (st : Style)
  (s : Scene) :
  Text E text font_size st s
  = mkOutcome
      (Ok (Mob (next_id s) st
             (TextPts text font_size (box_of (text_extent E text font_size)))
             []))
      (mkScene (S (next_id s)) (mobjects s) (camera s) (config s)) [].
Proof. reflexivity. Qed.

Lemma enter_run (m : Method) (s : Scene) :
  enter m s = mkOutcome (Ok tt) s [Enter m (mobjects s)].
Proof. reflexivity. Qed.

Lemma older_than_later (s : Scene) (k : nat) :
  well_formed s ->
  well_formed (mkScene (k + next_id s) (mobjects s) (camera s) (config s)).
Proof.
  intros H. unfold well_formed. cbn [next_id mobjects].
  eapply older_than_le; [| exact H]. lia.
Qed.

(** * Running a stage over an older canvas *)

Lemma family_ids_Mob i st o subs :
  family_ids (Mob i st o subs) = i :: flat_map family_ids subs.
Proof.
  unfold family_ids. simpl. f_equal.
  induction subs as [|x l IH]; simpl; [reflexivity |].
  rewrite map_app, IH. reflexivity.
Qed.

Lemma mob_id_align_on_border x y m d :
  mob_id (align_on_border x y m d) = mob_id m.
Proof. apply mob_id_shift. Qed.

Lemma family_ids_align_on_border x y m d :
  family_ids (align_on_border x y m d) = family_ids m.
Proof. apply family_ids_shift. Qed.

Lemma mob_id_rotate a m : mob_id (rotate a m) = mob_id m.
Proof. destruct m as [i st [] subs]; reflexivity. Qed.

Lemma family_ids_rotate a m : family_ids (rotate a m) = family_ids m.
Proof. destruct m as [i st [] subs]; reflexivity. Qed.

Lemma scene_add_new (l : list Mobject) (m : Mobject) :
  on_canvas l m = false -> scene_add l m = l ++ [m].
Proof. intros H. unfold scene_add. rewrite H. reflexivity. Qed.

Lemma scene_add_old (l : list Mobject) (m : Mobject) :
  on_canvas l m = true -> scene_add l m = l.
Proof. intros H. unfold scene_add. rewrite H. reflexivity. Qed.

Lemma settle_fade (l : list Mobject) (a : Animation) :
  is_remover a = true ->
  settle l a
  = filter (fun x => negb (Nat.eqb (mob_id x) (mob_id (anim_mobject a)))) l.
Proof. intros H. unfold settle. rewrite H. reflexivity. Qed.

Lemma settle_stay (l : list Mobject) (a : Animation) :
  is_remover a = false ->
  settle l a
  = map (fun x => if Nat.eqb (mob_id x) (mob_id (anim_mobject a))
                  then animated a else x) l.
Proof. intros H. unfold settle. rewrite H. reflexivity. Qed.

Lemma filter_keep {A : Type} (f : A -> bool) (x : A) (l : list A) :
  f x = true -> filter f (x :: l) = x :: filter f l.
Proof. intros H. simpl. rewrite H. reflexivity. Qed.

Lemma filter_drop {A : Type} (f : A -> bool) (x : A) (l : list A) :
  f x = false -> filter f (x :: l) = filter f l.
Proof. intros H. simpl. rewrite H. reflexivity. Qed.

Lemma filter_none {A : Type} (f : A -> bool) : filter f [] = [].
Proof. reflexivity. Qed.

Lemma scene_add_over (n : nat) (c l : list Mobject) (m : Mobject) :
  older_than n c -> (n <= mob_id m)%nat ->
  scene_add (c ++ l) m = c ++ scene_add l m.
Proof.
  intros H Hm. unfold scene_add. rewrite !on_canvas_ids.
  rewrite flat_map_app, existsb_app.
  rewrite (existsb_eqb_fresh _ _ n) by (auto using older_than_ids).
  simpl. destruct (existsb _ _); [reflexivity | symmetry; apply app_assoc].
Qed.

Lemma settle_over (n : nat) (c l : list Mobject) (a : Animation) :
  older_than n c -> (n <= mob_id (anim_mobject a))%nat ->
  settle (c ++ l) a = c ++ settle l a.
Proof.
  intros H Hm. unfold settle. destruct (is_remover a).
  - rewrite scene_remove_app, (scene_remove_older n) by assumption.
    reflexivity.
  - rewrite map_app, (replace_older n) by assumption. reflexivity.
Qed.

Lemma fold_scene_add_over (n : nat) (c : list Mobject) (ms l : list Mobject) :
  older_than n c -> Forall (fun m => (n <= mob_id m)%nat) ms ->
  fold_left scene_add ms (c ++ l) = c ++ fold_left scene_add ms l.
Proof.
  intros H Hms. revert l.
  induction Hms as [|m ms Hm _ IH]; intros l; simpl; [reflexivity |].
  rewrite (scene_add_over n) by assumption. apply IH.
Qed.

Lemma fold_settle_over (n : nat) (c : list Mobject) (batch : list Animation)
  (l : list Mobject) :
  older_than n c ->
  Forall (fun a => (n <= mob_id (anim_mobject a))%nat) batch ->
  fold_left settle batch (c ++ l) = c ++ fold_left settle batch l.
Proof.
  intros H Hb. revert l.
  induction Hb as [|a batch Ha _ IH]; intros l; simpl; [reflexivity |].
  rewrite (settle_over n) by assumption. apply IH.
Qed.

(** A batch that touches only objects built after the canvas [c] leaves
    [c] alone. *)
Lemma play_over (n : nat) (c l : list Mobject) (batch : list Animation)
  (rt : option Q) (s : Scene) :
  older_than n c -> mobjects s = c ++ l ->
  Forall (fun a => (n <= mob_id (anim_mobject a))%nat) batch ->
  ends (play batch rt s) tt
    (mkScene (next_id s)
       (c ++ fold_left settle batch
               (fold_left scene_add (map anim_mobject batch) l))
       (camera s) (config s)).
Proof.
  intros H Hs Hb. split; [reflexivity |].
  rewrite play_run. cbn [final]. rewrite Hs.
  rewrite (fold_scene_add_over n), (fold_settle_over n); try assumption.
  - reflexivity.
  - apply Forall_map. exact Hb.
Qed.

Lemma bind_ends {A B : Type} (c : M A) (k : A -> M B) (s : Scene) (a : A)
  (s1 : Scene) (b : B) (s2 : Scene) :
  ends (c s) a s1 -> ends (k a s1) b s2 -> ends (bind c k s) b s2.
Proof.
  intros [R F] [R' F']. unfold ends, bind. cbv zeta. rewrite R, F.
  cbn [result final]. split; assumption.
Qed.

Lemma ends_in {A : Type} (o : Outcome A) (a : A) (s s' : Scene) :
  ends o a s -> s = s' -> ends o a s'.
Proof. intros H <-. exact H. Qed.

Lemma ends_run {A : Type} (o : Outcome A) (a : A) (s : Scene) :
  ends o a s -> o = mkOutcome (Ok a) s (emitted o).
Proof. intros [R F]. destruct o. cbn in *. subst. reflexivity. Qed.

Lemma run_ends {A : Type} (o : Outcome A) (a : A) (s : Scene) :
  o = mkOutcome (Ok a) s (emitted o) -> ends o a s.
Proof. intros H. rewrite H. split; reflexivity. Qed.

(** Identities survive every move, scaling, turn and restyling. *)
Ltac ids :=
  repeat progress
    (unfold set_color_by_gradient, set_color, set_opacity, become;
     rewrite ?mob_id_move_to, ?mob_id_next_to, ?mob_id_scale, ?mob_id_shift,
       ?mob_id_restyle, ?mob_id_align_on_border, ?mob_id_rotate,
       ?family_ids_move_to, ?family_ids_next_to, ?family_ids_scale,
       ?family_ids_shift, ?family_ids_restyle, ?family_ids_align_on_border,
       ?family_ids_rotate, ?built_bubble_ids, ?mob_id_built_bubble,
       ?mob_id_empty_mobject, ?family_ids_empty_mobject,
       ?family_ids_Mob;
     repeat match goal with
            | H : family_ids ?x = _ |- context [family_ids ?x] => rewrite H
            | H : mob_id ?x = _ |- context [mob_id ?x] => rewrite H
            end;
     cbn [mob_id submobjects flat_map app anim_mobject restyle map]).

Ltac decide_ids :=
  repeat match goal with
         | |- context [Nat.eqb ?a ?b] =>
             first [ replace (Nat.eqb a b) with false
                       by (symmetry; apply Nat.eqb_neq; lia)
                   | replace (Nat.eqb a b) with true
                       by (symmetry; apply Nat.eqb_eq; lia) ]
         end.

(** What a batch does to a list of objects whose identities are known:
    the innermost step first. *)
Ltac literal l :=
  lazymatch l with
  | context [scene_add] => fail
  | context [settle] => fail
  | _ => idtac
  end.

Ltac on_canvas_decided :=
  rewrite on_canvas_ids; cbn [flat_map app]; ids; cbn [existsb orb];
  decide_ids; reflexivity.

Ltac add_step :=
  match goal with
  | |- context [scene_add ?l ?m] =>
      literal l;
      first [ rewrite (scene_add_new l m) by on_canvas_decided
            | rewrite (scene_add_old l m) by on_canvas_decided ];
      cbn [app]
  end.

Ltac id_decided := cbv beta; ids; decide_ids; reflexivity.

Ltac filtered :=
  repeat first [ rewrite filter_none
               | rewrite filter_keep by id_decided
               | rewrite filter_drop by id_decided ].

Ltac settle_step :=
  match goal with
  | |- context [settle ?l ?a] =>
      literal l;
      first [ rewrite (settle_fade l a) by reflexivity; filtered
            | rewrite (settle_stay l a) by reflexivity;
              cbn [map anim_mobject animated]; ids; decide_ids; cbn [map] ]
  end.

Ltac canvas :=
  cbn [fold_left map anim_mobject];
  repeat add_step;
  repeat settle_step.

Ltac settled :=
  cbv beta;
  cbn [next_id mobjects camera config frame_width frame_height pixel_width
       pixel_height phi theta background_color].

(** Constructors and the scene's plain settings are run as they stand. *)
Ltac computed :=
  cbn [result final emitted enter bind ret gets emit modify new_mobject
       VMobject VGroup Circle Rectangle Line Sphere Annulus Surface
       ParametricFunction NumberPlane Text MathTex to_edge
       set_camera_orientation set_background_color set_config
       next_id mobjects camera config frame_width frame_height pixel_width
       pixel_height phi theta background_color app add filter].

Ltac built := eapply bind_ends; [split; computed; reflexivity | settled].

Ltac fresh_batch :=
  repeat (apply Forall_nil || apply Forall_cons); cbv beta; ids; lia.

Ltac played n Hc :=
  eapply bind_ends;
  [ eapply (play_over n);
    [ exact Hc
    | cbn [mobjects]; first [reflexivity | symmetry; apply app_nil_r]
    | fresh_batch ]
  | settled; canvas ].

Ltac played_last n Hc :=
  eapply ends_in;
  [ eapply (play_over n);
    [ exact Hc
    | cbn [mobjects]; first [reflexivity | symmetry; apply app_nil_r]
    | fresh_batch ]
  | settled; canvas ].

(** The canvas [c] with a few later objects on top is a canvas of
    objects built in the scene. *)
Ltac each_family :=
  repeat first
    [ apply Forall_nil
    | apply Forall_cons;
      [ cbv beta; ids; repeat (apply Forall_nil || apply Forall_cons); lia
      | ] ].

Ltac built_here Hc :=
  unfold well_formed, older_than; cbn [next_id mobjects];
  apply Forall_app; split;
  [ eapply older_than_le; [| exact Hc]; lia | each_family ].

(** [wait] over an older canvas: its empty mobject comes on top. *)
Lemma wait_over (n : nat) (c l : list Mobject) (d : Q) (s : Scene) :
  older_than n c -> mobjects s = c ++ l -> (n <= next_id s)%nat ->
  existsb (fun j => Nat.eqb j (next_id s)) (flat_map family_ids l) = false ->
  ends (wait d s) tt
    (mkScene (S (next_id s)) (c ++ l ++ [empty_mobject (next_id s)])
       (camera s) (config s)).
Proof.
  intros Hc Hs Hn Hl. split; [reflexivity |].
  unfold wait, bind, new_mobject, modify, emit, set_mobjects.
  cbn [result final next_id mobjects camera config].
  rewrite Hs.
  rewrite (scene_add_fresh_after n c l (Mob (next_id s) default_style NoPoints []))
    by assumption.
  reflexivity.
Qed.

Lemma ThoughtBubble_ends (kwargs : Style) (s : Scene) :
  ends (ThoughtBubble kwargs s) (built_bubble (next_id s) kwargs)
    (mkScene (6 + next_id s) (mobjects s) (camera s) (config s)).
Proof. rewrite ThoughtBubble_built. split; reflexivity. Qed.

Ltac waited n Hc :=
  eapply bind_ends;
  [ eapply (wait_over n);
    [ exact Hc
    | cbn [mobjects]; first [reflexivity | symmetry; apply app_nil_r]
    | cbn [next_id]; lia
    | cbn [next_id flat_map app]; ids; cbn [existsb orb]; decide_ids;
      reflexivity ]
  | settled; cbn [app] ].

Ltac waited_last n Hc :=
  eapply ends_in;
  [ eapply (wait_over n);
    [ exact Hc
    | cbn [mobjects]; first [reflexivity | symmetry; apply app_nil_r]
    | cbn [next_id]; lia
    | cbn [next_id flat_map app]; ids; cbn [existsb orb]; decide_ids;
      reflexivity ]
  | settled; cbn [app] ].

Ltac called f := eapply bind_ends; [split; unfold f; computed; reflexivity | settled].

Ltac listed :=
  cbn [comprehension for_each range seq map Z.of_nat Pos.of_succ_nat
       Pos.succ split set_color restyle submobjects outline has_points app].

(** * The stages, run over a canvas of older objects *)

Lemma show_narration_ends (E : Engine) (narrator : Mobject) (text : string)
  (s : Scene) :
  well_formed s ->
  ends (show_narration E narrator text s) tt
    (mkScene (8 + next_id s) (mobjects s ++ [empty_mobject (7 + next_id s)])
       (camera s) (config s)).
Proof.
  destruct s as [n c cam cfg]. unfold well_formed.
  cbn [next_id mobjects camera config].
  intros Hc. unfold show_narration.
  built.
  eapply bind_ends; [apply ThoughtBubble_ends | settled].
  built.
  played n Hc.
  waited n Hc.
  played_last n Hc.
  reflexivity.
Qed.

Lemma show_title_ends (E : Engine) (s : Scene) :
  well_formed s ->
  ends (show_title E s) tt
    (mkScene (3 + next_id s) (mobjects s ++ [empty_mobject (2 + next_id s)])
       (camera s) (config s)).
Proof.
  destruct s as [n c cam cfg]. unfold well_formed.
  cbn [next_id mobjects camera config].
  intros Hc. unfold show_title.
  built. built. built.
  played n Hc.
  waited n Hc.
  played_last n Hc.
  reflexivity.
Qed.

Lemma show_conclusion_ends (E : Engine) (s : Scene) :
  well_formed s ->
  ends (show_conclusion E s) tt
    (mkScene (2 + next_id s) (mobjects s ++ [empty_mobject (1 + next_id s)])
       (camera s) (config s)).
Proof.
  destruct s as [n c cam cfg]. unfold well_formed.
  cbn [next_id mobjects camera config].
  intros Hc. unfold show_conclusion.
  built. built.
  played n Hc.
  waited n Hc.
  played_last n Hc.
  reflexivity.
Qed.

Lemma introduce_narrator_ends (E : Engine) (narrator : Mobject) (s : Scene) :
  well_formed s ->
  ends (introduce_narrator E narrator s) tt
    (mkScene (8 + next_id s) (mobjects s ++ [empty_mobject (7 + next_id s)])
       (camera s) (config s)).
Proof.
  destruct s as [n c cam cfg]. unfold well_formed.
  cbn [next_id mobjects camera config].
  intros Hc. unfold introduce_narrator.
  built.
  eapply bind_ends; [apply ThoughtBubble_ends | settled].
  built.
  assert (headed : exists h,
             headed_by
               (next_to (scale 0.7 (built_bubble n default_style)) narrator UP
                  DEFAULT_MOBJECT_TO_MOBJECT_BUFFER) (2 + n) h).
  { eexists. apply headed_by_shift, headed_by_scale_about,
      built_bubble_headed. }
  destruct headed as (h & headed).
  destruct (headed_by_anchor _ _ _ headed)
    as (_ & anchor & _ & _ & _ & A1 & _).
  rewrite A1.
  played n Hc.
  waited n Hc.
  played_last n Hc.
  reflexivity.
Qed.

Lemma show_time_dilation_ends (E : Engine)
  (earth_frame ship_frame narrator : Mobject) (s : Scene) :
  well_formed s ->
  ends (show_time_dilation E earth_frame ship_frame narrator s) tt
    (mkScene (10 + next_id s) (mobjects s ++ [empty_mobject (9 + next_id s)])
       (camera s) (config s)).
Proof.
  destruct s as [n c cam cfg]. unfold well_formed.
  cbn [next_id mobjects camera config].
  intros Hc. unfold show_time_dilation.
  built. built. built.
  played n Hc.
  played n Hc.
  eapply bind_ends; [apply show_narration_ends; built_here Hc | settled].
  rewrite <- app_assoc. cbn [app].
  played_last n Hc.
  reflexivity.
Qed.

Lemma special_relativity_chapter_ends (E : Engine) (narrator : Mobject)
  (s : Scene) :
  well_formed s ->
  ends (special_relativity_chapter E narrator s) tt
    (mkScene (23 + next_id s) (mobjects s ++ [empty_mobject (22 + next_id s)])
       (camera s) (config s)).
Proof.
  destruct s as [n c cam cfg]. unfold well_formed.
  cbn [next_id mobjects camera config].
  intros Hc. unfold special_relativity_chapter.
  built. built. built.
  played n Hc.
  called create_spacetime_diagram.
  played n Hc.
  called create_reference_frames.
  eapply bind_ends; [apply show_time_dilation_ends; built_here Hc | settled].
  rewrite <- app_assoc. cbn [app].
  played n Hc.
  played_last n Hc.
  reflexivity.
Qed.

(** * The general relativity chapter and the whole run *)

Lemma general_relativity_chapter_leaves (E : Engine) (narrator : Mobject)
  (s : Scene) :
  well_formed s ->
  exists leftover,
    ends (general_relativity_chapter E narrator s) tt
      (mkScene (27 + next_id s) (mobjects s ++ leftover)
         (mkCamera (75 * DEGREES) (-45 * DEGREES)
            (background_color (camera s)))
         (config s))
    /\ map kind_of leftover
       = [KGroup; KSurface; KSphere; KCircle; KCircle; KCircle; KCircle;
          KCircle; KAnnulus; KCurve; KCurve; KCurve; KCurve; KCurve; KGroup]
    /\ map kind_of (drawn leftover)
       = [KSurface; KSphere; KCircle; KCircle; KCircle; KCircle; KCircle;
          KAnnulus; KCurve; KCurve; KCurve; KCurve; KCurve]
    /\ Forall (fun m => Forall (fun i => (next_id s <= i < 27 + next_id s)%nat)
                          (family_ids m)) leftover.
Proof.
  destruct s as [n c cam cfg]. unfold well_formed.
  cbn [next_id mobjects camera config].
  intros Hc. eexists. split.
  - unfold general_relativity_chapter.
    built. built. built.
    played n Hc.
    waited n Hc.
    called create_spacetime_curvature.
    built. built.
    played n Hc.
    eapply bind_ends.
    { unfold show_gravitational_waves.
      built.
      eapply bind_ends; [split; listed; computed; reflexivity | settled].
      built. listed.
      played_last n Hc. reflexivity. }
    settled.
    eapply bind_ends.
    { unfold show_black_hole.
      built. built. built.
      played n Hc.
      eapply bind_ends;
        [ split; unfold create_photon_paths; listed; computed; reflexivity
        | settled ].
      listed.
      eapply bind_ends.
      { played n Hc. played n Hc. played n Hc. played n Hc. played n Hc.
        split; computed; reflexivity. }
      settled.
      eapply ends_in; [apply show_narration_ends; built_here Hc |].
      settled. reflexivity. }
    settled. rewrite <- app_assoc. cbn [app].
    played_last n Hc. reflexivity.
  - split; [reflexivity |]. split; [reflexivity |]. each_family.
Qed.

(** The whole run, from any scene whose canvas holds only objects built
    in it: fourteen objects to see and the six empty mobjects of the
    waits are left on top of what was there. *)
Lemma construct_grows (E : Engine) (s : Scene) :
  file_exists E narrator_path = true ->
  well_formed s ->
  exists grown,
    ends (construct E s) tt
      (mkScene (64 + next_id s) (mobjects s ++ grown)
         (mkCamera (75 * DEGREES) (-45 * DEGREES) "#1a1a1a")
         (mkConfig 16 9 1920 1080))
    /\ map kind_of grown
       = [KGroup; KSvg narrator_path; KGroup; KGroup; KGroup; KSurface;
          KSphere; KCircle; KCircle; KCircle; KCircle; KCircle; KAnnulus;
          KCurve; KCurve; KCurve; KCurve; KCurve; KGroup; KGroup]
    /\ map kind_of (filter is_drawn grown)
       = [KSvg narrator_path; KSurface; KSphere; KCircle; KCircle; KCircle;
          KCircle; KCircle; KAnnulus; KCurve; KCurve; KCurve; KCurve; KCurve]
    /\ Forall (fun m => Forall (fun i => (next_id s <= i < 64 + next_id s)%nat)
                          (family_ids m)) grown.
Proof.
  destruct s as [n c cam cfg]. unfold well_formed.
  cbn [next_id mobjects camera config].
  intros HE Hc.
  set (narrator :=
         shift DOWN
           (align_on_border (16 / 2) (9 / 2)
              (scale 1.5
                 (Mob (3 + n) default_style
                    (SvgPts narrator_path
                       (box_of (svg_extent E narrator_path))) []))
              LEFT)).
  assert (Hid : family_ids narrator = [3 + n]%nat)
    by (unfold narrator; ids; try reflexivity).
  assert (Hmid : mob_id narrator = (3 + n)%nat)
    by (unfold narrator; ids; try reflexivity).
  assert (Hkind : kind_of narrator = KSvg narrator_path) by reflexivity.
  set (cam1 := mkCamera (70 * DEGREES) (-30 * DEGREES) "#1a1a1a").
  set (cfg1 := mkConfig 16 9 1920 1080).
  set (pre := [empty_mobject (2 + n); narrator; empty_mobject (11 + n);
               empty_mobject (34 + n)]).
  assert (Hpre : Forall (fun m => Forall (fun i => (n <= i < 35 + n)%nat)
                                    (family_ids m)) pre).
  { unfold pre.
    repeat first
      [ apply Forall_nil
      | apply Forall_cons;
        [ ids; repeat (apply Forall_nil || apply Forall_cons); lia | ] ]. }
  assert (Hc1 : older_than (35 + n) (c ++ pre)).
  { apply Forall_app. split.
    - eapply older_than_le; [| exact Hc]. lia.
    - eapply Forall_impl; [| exact Hpre]. intros m Hm.
      eapply Forall_impl; [| exact Hm]. intros i Hi. cbv beta in Hi. lia. }
  destruct (general_relativity_chapter_leaves E narrator
              (mkScene (35 + n) (c ++ pre) cam1 cfg1) Hc1)
    as (leftover & Hgr & Hkinds & Hdrawn & Hfam).
  cbn [next_id mobjects camera config background_color cam1] in Hgr, Hfam.
  assert (Hseen : is_drawn narrator = true) by reflexivity.
  exists (pre ++ leftover ++ [empty_mobject (63 + n)]).
  split; [| split; [| split]].
  - unfold construct.
    built. built.
    called configure_global_settings.
    built.
    eapply bind_ends; [apply show_title_ends; exact Hc | settled].
    eapply bind_ends.
    { split; unfold create_narrator, Narrator, SVGMobject; rewrite HE;
        computed; reflexivity. }
    settled. fold narrator.
    played n Hc.
    eapply bind_ends; [apply introduce_narrator_ends; built_here Hc | settled].
    rewrite <- app_assoc. cbn [app].
    eapply bind_ends;
      [apply special_relativity_chapter_ends; built_here Hc | settled].
    rewrite <- app_assoc. cbn [app].
    eapply bind_ends; [exact Hgr | settled].
    eapply ends_in; [apply show_conclusion_ends |].
    + unfold well_formed, older_than. cbn [next_id mobjects].
      apply Forall_app. split.
      * eapply older_than_le; [| exact Hc1]. lia.
      * eapply Forall_impl; [| exact Hfam]. intros m Hm.
        eapply Forall_impl; [| exact Hm]. intros i Hi. cbv beta in Hi. lia.
    + settled. rewrite <- !app_assoc. reflexivity.
  - rewrite !map_app, Hkinds. unfold pre. cbn [map app]. rewrite Hkind.
    reflexivity.
  - rewrite !filter_app, !map_app. fold (drawn leftover). rewrite Hdrawn.
    unfold pre. cbn [filter]. rewrite Hseen. reflexivity.
  - apply Forall_app. split.
    + eapply Forall_impl; [| exact Hpre]. intros m Hm.
      eapply Forall_impl; [| exact Hm]. intros i Hi. cbv beta in Hi. lia.
    + apply Forall_app. split.
      * eapply Forall_impl; [| exact Hfam]. intros m Hm.
        eapply Forall_impl; [| exact Hm]. intros i Hi. cbv beta in Hi. lia.
      * apply Forall_cons; [| apply Forall_nil]. ids.
        apply Forall_cons; [lia | apply Forall_nil].
Qed.

(** * The narrator figure *)

Lemma Qmin_max_sum (x y : Q) : Qmin x y + Qmax x y == x + y.
Proof.
  destruct (Q.min_spec x y) as [[H1 ->] | [H1 ->]];
    destruct (Q.max_spec x y) as [[H2 ->] | [H2 ->]]; qlra.
Qed.

Lemma create_narrator_there (E : Engine) (s : Scene) :
  file_exists E narrator_path = true ->
  create_narrator E s
  = mkOutcome
      (Ok (shift DOWN
             (align_on_border (frame_width (config s) / 2)
                (frame_height (config s) / 2)
                (scale 1.5
                   (Mob (next_id s) default_style
                      (SvgPts narrator_path
                         (box_of (svg_extent E narrator_path))) []))
                LEFT)))
      (mkScene (S (next_id s)) (mobjects s) (camera s) (config s))
      [Enter m_create_narrator (mobjects s)].
Proof.
  intros H. unfold create_narrator, Narrator, SVGMobject. rewrite H.
  reflexivity.
Qed.

(** X11. [create_narrator], with the image there, in any scene: the
    figure it returns is the loaded image, its left side half a unit
    inside the left border of the frame as the configuration has it at
    the call, and its centre one unit below the middle line. *)
Theorem create_narrator_placement (E : Engine) (s : Scene) :
  file_exists E narrator_path = true ->
  exists narrator,
    result (create_narrator E s) = Ok narrator
    /\ kind_of narrator = KSvg narrator_path
    /\ px (get_critical_point narrator LEFT)
       == - (frame_width (config s) / 2) + 0.5
    /\ py (get_center narrator) == -1.
Proof.
  intros H. rewrite (create_narrator_there E s H). cbn [result].
  eexists. split; [reflexivity |]. split; [reflexivity |].
  set (w := fst (svg_extent E narrator_path)).
  set (h := snd (svg_extent E narrator_path)).
  set (N := scale 1.5 _).
  set (A := align_on_border _ _ N LEFT).
  assert (HN : boxes N <> []) by (cbn; discriminate).
  assert (HA : boxes A <> []) by (cbn; discriminate).
  assert (HNy : py (get_center N) == 0).
  { unfold N, get_center, scale, get_critical_point. cbn.
    rewrite Qmin_max_sum.
    generalize (snd (svg_extent E "assets/narrator.svg")). intros y. qlra. }
  clearbody N.
  split.
  - destruct (get_critical_point_shift DOWN A LEFT HA) as (H1 & _ & _).
    rewrite H1. unfold A, align_on_border.
    match goal with
    | |- context [get_critical_point (shift ?v N) LEFT] =>
        destruct (get_critical_point_shift v N LEFT HN) as (H2 & _ & _)
    end.
    cbn [padd px DOWN]. rewrite H2.
    cbn. unfold DEFAULT_MOBJECT_TO_EDGE_BUFFER.
    generalize (px (get_critical_point N LEFT)). intros x.
    generalize (frame_width (config s)). intros fw.
    qlra.
  - destruct (get_center_shift DOWN A HA) as (_ & H1 & _).
    rewrite H1. unfold A, align_on_border.
    match goal with
    | |- context [get_center (shift ?v N)] =>
        destruct (get_center_shift v N HN) as (_ & H2 & _)
    end.
    cbn [padd py DOWN]. rewrite H2. cbn [padd py]. rewrite HNy.
    cbn. unfold DEFAULT_MOBJECT_TO_EDGE_BUFFER.
    generalize (py (get_critical_point N LEFT)). intros y.
    generalize (frame_height (config s)). intros fh.
    qlra.
Qed.

Lemma create_narrator_placement_witness :
  file_exists studio narrator_path = true
  /\ exists narrator,
       result (create_narrator studio fresh_scene) = Ok narrator
       /\ kind_of narrator = KSvg narrator_path
       /\ px (get_critical_point narrator LEFT)
          == - (frame_width (config fresh_scene) / 2) + 0.5
       /\ py (get_center narrator) == -1.
Proof.
  split; [reflexivity |].
  exact (create_narrator_placement studio fresh_scene eq_refl).
Defined.

(** * The circles of the gravitational waves *)

Lemma show_gravitational_waves_adds (grid : Mobject) (s : Scene) :
  well_formed s ->
  exists waves,
    ends (show_gravitational_waves grid s) tt
      (mkScene (6 + next_id s) (mobjects s ++ waves) (camera s) (config s))
    /\ map radius_of waves
       = map (fun i => Some (0.5 + 0.5 * inject_Z i)%Q) (range 5)
    /\ Forall (fun m => colors (style m) = [BLUE]) waves
    /\ map mob_id waves = map (fun k => (k + next_id s)%nat) (seq 0 5).
Proof.
  destruct s as [n c cam cfg]. unfold well_formed.
  cbn [next_id mobjects camera config].
  intros Hc. eexists. split.
  - unfold show_gravitational_waves.
    built.
    eapply bind_ends; [split; listed; computed; reflexivity | settled].
    built. listed.
    played_last n Hc. reflexivity.
  - split; [reflexivity |]. split; [| reflexivity].
    repeat (apply Forall_nil || apply Forall_cons); reflexivity.
Qed.

(** * A run without the narrator image *)

Lemma bind_ends_fails {A B : Type} (c : M A) (k : A -> M B) (s : Scene)
  (a : A) (s1 : Scene) (e : Error) (s2 : Scene) :
  ends (c s) a s1 -> fails (k a s1) e s2 -> fails (bind c k s) e s2.
Proof.
  intros [R F] [R' F']. unfold fails, bind. cbv zeta. rewrite R, F.
  cbn [result final]. split; assumption.
Qed.

Lemma bind_fails {A B : Type} (c : M A) (k : A -> M B) (s : Scene)
  (e : Error) (s1 : Scene) :
  fails (c s) e s1 -> fails (bind c k s) e s1.
Proof.
  intros [R F]. unfold fails, bind. cbv zeta. rewrite R.
  cbn [result final]. split; [reflexivity | assumption].
Qed.

Lemma create_narrator_absent (E : Engine) (s : Scene) :
  file_exists E narrator_path = false ->
  create_narrator E s
  = mkOutcome (Raise (AssetNotFound narrator_path)) s
      [Enter m_create_narrator (mobjects s)].
Proof.
  intros H. unfold create_narrator, Narrator, SVGMobject. rewrite H.
  destruct s. reflexivity.
Qed.

Lemma construct_aborted (E : Engine) (s : Scene) :
  file_exists E narrator_path = false ->
  well_formed s ->
  fails (construct E s) (AssetNotFound narrator_path)
    (mkScene (3 + next_id s) (mobjects s ++ [empty_mobject (2 + next_id s)])
       (mkCamera (70 * DEGREES) (-30 * DEGREES) "#1a1a1a")
       (mkConfig 16 9 1920 1080)).
Proof.
  destruct s as [n c cam cfg]. unfold well_formed.
  cbn [next_id mobjects camera config].
  intros HE Hc. unfold construct.
  eapply bind_ends_fails; [split; computed; reflexivity | settled].
  eapply bind_ends_fails; [split; computed; reflexivity | settled].
  eapply bind_ends_fails;
    [split; unfold configure_global_settings; computed; reflexivity
    | settled].
  eapply bind_ends_fails; [split; computed; reflexivity | settled].
  eapply bind_ends_fails; [apply show_title_ends; exact Hc | settled].
  apply bind_fails. rewrite (create_narrator_absent E _ HE).
  split; reflexivity.
Qed.

(** * What there is to see *)

Lemma drawn_app (a b : list Mobject) : drawn (a ++ b) = drawn a ++ drawn b.
Proof. apply filter_app. Qed.

Lemma drawn_with_empty (c : list Mobject) (i : nat) :
  drawn (c ++ [empty_mobject i]) = drawn c.
Proof. rewrite drawn_app. cbn. apply app_nil_r. Qed.

(** * What each stage leaves on the canvas *)

(** X2. [show_narration], whatever the narrator figure, the caption and
    the engine, on a scene whose canvas holds only objects built in it:
    it never fails and takes eight identities; the bubble and the caption
    come and go, and all it leaves on the canvas it found is the empty
    mobject of its wait, so there is to see what there was before; the
    camera and the configuration are as it found them. *)
Theorem show_narration_leaves_only_its_wait (E : Engine) (narrator : Mobject)
  (text : string) (s : Scene) :
  well_formed s ->
  result (show_narration E narrator text s) = Ok tt
  /\ final (show_narration E narrator text s)
     = mkScene (8 + next_id s)
         (mobjects s ++ [empty_mobject (7 + next_id s)])
         (camera s) (config s)
  /\ drawn (mobjects (final (show_narration E narrator text s)))
     = drawn (mobjects s).
Proof.
  intros H. destruct (show_narration_ends E narrator text s H) as [R F].
  rewrite F. cbn [mobjects]. rewrite drawn_with_empty.
  split; [exact R |]. split; reflexivity.
Qed.

Lemma show_narration_leaves_only_its_wait_witness :
  well_formed fresh_scene
  /\ result (show_narration studio some_narrator "A caption" fresh_scene)
     = Ok tt.
Proof.
  split; [apply Forall_nil |].
  exact (proj1 (show_narration_leaves_only_its_wait studio some_narrator
                  "A caption" fresh_scene (Forall_nil _))).
Defined.

(** X3. [show_title] on such a scene: the title and the subtitle come
    and go; three identities are taken and all that is left on the canvas
    it found is the empty mobject of the wait. *)
Theorem show_title_leaves_only_its_wait (E : Engine) (s : Scene) :
  well_formed s ->
  result (show_title E s) = Ok tt
  /\ final (show_title E s)
     = mkScene (3 + next_id s)
         (mobjects s ++ [empty_mobject (2 + next_id s)])
         (camera s) (config s)
  /\ drawn (mobjects (final (show_title E s))) = drawn (mobjects s).
Proof.
  intros H. destruct (show_title_ends E s H) as [R F].
  rewrite F. cbn [mobjects]. rewrite drawn_with_empty.
  split; [exact R |]. split; reflexivity.
Qed.

Lemma show_title_leaves_only_its_wait_witness :
  well_formed fresh_scene
  /\ result (show_title studio fresh_scene) = Ok tt.
Proof.
  split; [apply Forall_nil |].
  exact (proj1 (show_title_leaves_only_its_wait studio fresh_scene
                  (Forall_nil _))).
Defined.

(** X4. [introduce_narrator] on such a scene, whatever the narrator
    figure: the bubble always has an item 0, so the method never fails;
    the bubble and the caption come and go, eight identities are taken,
    and all that is left on the canvas it found is the empty mobject of
    the wait. *)
Theorem introduce_narrator_leaves_only_its_wait (E : Engine)
  (narrator : Mobject) (s : Scene) :
  well_formed s ->
  result (introduce_narrator E narrator s) = Ok tt
  /\ final (introduce_narrator E narrator s)
     = mkScene (8 + next_id s)
         (mobjects s ++ [empty_mobject (7 + next_id s)])
         (camera s) (config s)
  /\ drawn (mobjects (final (introduce_narrator E narrator s)))
     = drawn (mobjects s).
Proof.
  intros H. destruct (introduce_narrator_ends E narrator s H) as [R F].
  rewrite F. cbn [mobjects]. rewrite drawn_with_empty.
  split; [exact R |]. split; reflexivity.
Qed.

Lemma introduce_narrator_leaves_only_its_wait_witness :
  well_formed fresh_scene
  /\ result (introduce_narrator studio some_narrator fresh_scene) = Ok tt.
Proof.
  split; [apply Forall_nil |].
  exact (proj1 (introduce_narrator_leaves_only_its_wait studio some_narrator
                  fresh_scene (Forall_nil _))).
Defined.

(** X5. [show_conclusion] on such a scene: the closing text comes and
    goes; two identities are taken and all that is left on the canvas it
    found is the empty mobject of the wait. *)
Theorem show_conclusion_leaves_only_its_wait (E : Engine) (s : Scene) :
  well_formed s ->
  result (show_conclusion E s) = Ok tt
  /\ final (show_conclusion E s)
     = mkScene (2 + next_id s)
         (mobjects s ++ [empty_mobject (1 + next_id s)])
         (camera s) (config s)
  /\ drawn (mobjects (final (show_conclusion E s))) = drawn (mobjects s).
Proof.
  intros H. destruct (show_conclusion_ends E s H) as [R F].
  rewrite F. cbn [mobjects]. rewrite drawn_with_empty.
  split; [exact R |]. split; reflexivity.
Qed.

Lemma show_conclusion_leaves_only_its_wait_witness :
  well_formed fresh_scene
  /\ result (show_conclusion studio fresh_scene) = Ok tt.
Proof.
  split; [apply Forall_nil |].
  exact (proj1 (show_conclusion_leaves_only_its_wait studio fresh_scene
                  (Forall_nil _))).
Defined.

(** X6. [show_time_dilation] on such a scene, whatever the two frames and
    the narrator: the two clocks are created, rescaled in place, kept
    through the narration and faded out; ten identities are taken and all
    that is left on the canvas it found is the empty mobject of the
    narration's wait. *)
Theorem show_time_dilation_leaves_only_a_wait (E : Engine)
  (earth_frame ship_frame narrator : Mobject) (s : Scene) :
  well_formed s ->
  result (show_time_dilation E earth_frame ship_frame narrator s) = Ok tt
  /\ final (show_time_dilation E earth_frame ship_frame narrator s)
     = mkScene (10 + next_id s)
         (mobjects s ++ [empty_mobject (9 + next_id s)])
         (camera s) (config s)
  /\ drawn (mobjects
              (final (show_time_dilation E earth_frame ship_frame narrator s)))
     = drawn (mobjects s).
Proof.
  intros H.
  destruct (show_time_dilation_ends E earth_frame ship_frame narrator s H)
    as [R F].
  rewrite F. cbn [mobjects]. rewrite drawn_with_empty.
  split; [exact R |]. split; reflexivity.
Qed.

Lemma show_time_dilation_leaves_only_a_wait_witness :
  well_formed fresh_scene
  /\ result (show_time_dilation studio some_narrator some_narrator
               some_narrator fresh_scene) = Ok tt.
Proof.
  split; [apply Forall_nil |].
  exact (proj1 (show_time_dilation_leaves_only_a_wait studio some_narrator
                  some_narrator some_narrator fresh_scene (Forall_nil _))).
Defined.

(** X7. [special_relativity_chapter] on such a scene, whatever the
    narrator: with [create_spacetime_diagram], [create_reference_frames]
    and [show_time_dilation] it takes twenty-three identities and fades
    out every object it brought onto the canvas; all that is left on the
    canvas it found is the empty mobject of the narration's wait. *)
Theorem special_relativity_chapter_leaves_only_a_wait (E : Engine)
  (narrator : Mobject) (s : Scene) :
  well_formed s ->
  result (special_relativity_chapter E narrator s) = Ok tt
  /\ final (special_relativity_chapter E narrator s)
     = mkScene (23 + next_id s)
         (mobjects s ++ [empty_mobject (22 + next_id s)])
         (camera s) (config s)
  /\ drawn (mobjects (final (special_relativity_chapter E narrator s)))
     = drawn (mobjects s).
Proof.
  intros H.
  destruct (special_relativity_chapter_ends E narrator s H) as [R F].
  rewrite F. cbn [mobjects]. rewrite drawn_with_empty.
  split; [exact R |]. split; reflexivity.
Qed.

Lemma special_relativity_chapter_leaves_only_a_wait_witness :
  well_formed fresh_scene
  /\ result (special_relativity_chapter studio some_narrator fresh_scene)
     = Ok tt.
Proof.
  split; [apply Forall_nil |].
  exact (proj1 (special_relativity_chapter_leaves_only_a_wait studio
                  some_narrator fresh_scene (Forall_nil _))).
Defined.

(** X8. [general_relativity_chapter] on such a scene, whatever the
    narrator: it never fails, turns the camera to 75 and -45 degrees and
    leaves it there, and leaves on top of the canvas it found, with the
    empty mobjects of its two waits, thirteen objects to see: the
    surface, the sphere, the five wave circles, the ring and the five
    photon paths. *)
Theorem general_relativity_chapter_leaves_thirteen (E : Engine)
  (narrator : Mobject) (s : Scene) :
  well_formed s ->
  exists leftover,
    result (general_relativity_chapter E narrator s) = Ok tt
    /\ mobjects (final (general_relativity_chapter E narrator s))
       = mobjects s ++ leftover
    /\ map kind_of leftover
       = [KGroup; KSurface; KSphere; KCircle; KCircle; KCircle; KCircle;
          KCircle; KAnnulus; KCurve; KCurve; KCurve; KCurve; KCurve; KGroup]
    /\ map kind_of (drawn leftover)
       = [KSurface; KSphere; KCircle; KCircle; KCircle; KCircle; KCircle;
          KAnnulus; KCurve; KCurve; KCurve; KCurve; KCurve]
    /\ camera (final (general_relativity_chapter E narrator s))
       = mkCamera (75 * DEGREES) (-45 * DEGREES)
           (background_color (camera s)).
Proof.
  intros H.
  destruct (general_relativity_chapter_leaves E narrator s H)
    as (leftover & [R F] & K & D & _).
  exists leftover. rewrite F. repeat split; assumption.
Qed.

Lemma general_relativity_chapter_leaves_thirteen_witness :
  well_formed fresh_scene
  /\ exists leftover,
       result (general_relativity_chapter studio some_narrator fresh_scene)
       = Ok tt
       /\ mobjects
            (final (general_relativity_chapter studio some_narrator
                      fresh_scene))
          = mobjects fresh_scene ++ leftover
       /\ map kind_of leftover
          = [KGroup; KSurface; KSphere; KCircle; KCircle; KCircle; KCircle;
             KCircle; KAnnulus; KCurve; KCurve; KCurve; KCurve; KCurve;
             KGroup]
       /\ map kind_of (drawn leftover)
          = [KSurface; KSphere; KCircle; KCircle; KCircle; KCircle; KCircle;
             KAnnulus; KCurve; KCurve; KCurve; KCurve; KCurve]
       /\ camera
            (final (general_relativity_chapter studio some_narrator
                      fresh_scene))
          = mkCamera (75 * DEGREES) (-45 * DEGREES)
              (background_color (camera fresh_scene)).
Proof.
  split; [apply Forall_nil |].
  exact (general_relativity_chapter_leaves_thirteen studio some_narrator
           fresh_scene (Forall_nil _)).
Defined.

(** X9. The whole run, with the narrator image there, from any scene whose
    canvas holds only objects built in it: it completes, leaves what was
    on the canvas where it was and twenty objects on top, of which
    fourteen are to see (the narrator and the thirteen of the general
    relativity chapter) and six are the empty mobjects of the waits; it
    ends with the camera at 75 and -45 degrees on the background #1a1a1a,
    the frame 16 by 9 and 1920 by 1080 pixels; the scene it leaves is
    again such a scene. *)
Theorem construct_leaves_fourteen (E : Engine) (s : Scene) :
  file_exists E narrator_path = true ->
  well_formed s ->
  exists grown,
    result (construct E s) = Ok tt
    /\ final (construct E s)
       = mkScene (64 + next_id s) (mobjects s ++ grown)
           (mkCamera (75 * DEGREES) (-45 * DEGREES) "#1a1a1a")
           (mkConfig 16 9 1920 1080)
    /\ map kind_of (drawn grown)
       = [KSvg narrator_path; KSurface; KSphere; KCircle; KCircle; KCircle;
          KCircle; KCircle; KAnnulus; KCurve; KCurve; KCurve; KCurve; KCurve]
    /\ List.length grown = 20%nat
    /\ well_formed (final (construct E s)).
Proof.
  intros HE H.
  destruct (construct_grows E s HE H) as (grown & [R F] & K & D & B).
  exists grown. rewrite F.
  split; [exact R |]. split; [reflexivity |]. split; [exact D |].
  split; [rewrite <- (length_map kind_of), K; reflexivity |].
  unfold well_formed, older_than. cbn [next_id mobjects].
  apply Forall_app. split.
  - eapply older_than_le; [| exact H]. lia.
  - eapply Forall_impl; [| exact B]. intros m Hm.
    eapply Forall_impl; [| exact Hm]. intros i Hi. cbv beta in Hi. lia.
Qed.

Lemma construct_leaves_fourteen_witness :
  file_exists studio narrator_path = true
  /\ well_formed fresh_scene
  /\ exists grown,
       result (construct studio fresh_scene) = Ok tt
       /\ final (construct studio fresh_scene)
          = mkScene (64 + next_id fresh_scene) (mobjects fresh_scene ++ grown)
              (mkCamera (75 * DEGREES) (-45 * DEGREES) "#1a1a1a")
              (mkConfig 16 9 1920 1080)
       /\ map kind_of (drawn grown)
          = [KSvg narrator_path; KSurface; KSphere; KCircle; KCircle;
             KCircle; KCircle; KCircle; KAnnulus; KCurve; KCurve; KCurve;
             KCurve; KCurve]
       /\ List.length grown = 20%nat
       /\ well_formed (final (construct studio fresh_scene)).
Proof.
  split; [reflexivity |]. split; [apply Forall_nil |].
  exact (construct_leaves_fourteen studio fresh_scene eq_refl
           (Forall_nil _)).
Defined.

(** X10. A second run, started where a first run ended, completes too and
    leaves its own twenty objects on top of those of the first: nothing
    of the first run is cleared. *)
Theorem second_run_piles_up (E : Engine) (s : Scene) :
  file_exists E narrator_path = true ->
  well_formed s ->
  exists first second,
    mobjects (final (construct E s)) = mobjects s ++ first
    /\ result (construct E (final (construct E s))) = Ok tt
    /\ mobjects (final (construct E (final (construct E s))))
       = mobjects s ++ first ++ second
    /\ map kind_of second = map kind_of first
    /\ List.length first = 20%nat
    /\ List.length (drawn first) = 14%nat.
Proof.
  intros HE H.
  destruct (construct_grows E s HE H) as (g1 & [R1 F1] & K1 & D1 & B1).
  assert (H1 : well_formed (final (construct E s))).
  { rewrite F1. unfold well_formed, older_than. cbn [next_id mobjects].
    apply Forall_app. split.
    - eapply older_than_le; [| exact H]. lia.
    - eapply Forall_impl; [| exact B1]. intros m Hm.
      eapply Forall_impl; [| exact Hm]. intros i Hi. cbv beta in Hi. lia. }
  destruct (construct_grows E _ HE H1) as (g2 & [R2 F2] & K2 & _ & _).
  exists g1, g2.
  split; [rewrite F1; reflexivity |]. split; [exact R2 |].
  split; [rewrite F2, F1; cbn [mobjects]; symmetry; apply app_assoc |].
  split; [rewrite K1, K2; reflexivity |].
  split; [rewrite <- (length_map kind_of), K1; reflexivity |].
  unfold drawn. rewrite <- (length_map kind_of), D1. reflexivity.
Qed.

Lemma second_run_piles_up_witness :
  file_exists studio narrator_path = true
  /\ well_formed fresh_scene
  /\ exists first second,
       mobjects (final (construct studio fresh_scene))
       = mobjects fresh_scene ++ first
       /\ result (construct studio (final (construct studio fresh_scene)))
          = Ok tt
       /\ mobjects
            (final (construct studio (final (construct studio fresh_scene))))
          = mobjects fresh_scene ++ first ++ second
       /\ map kind_of second = map kind_of first
       /\ List.length first = 20%nat
       /\ List.length (drawn first) = 14%nat.
Proof.
  split; [reflexivity |]. split; [apply Forall_nil |].
  exact (second_run_piles_up studio fresh_scene eq_refl (Forall_nil _)).
Defined.

(** X12. [create_narrator], with the image missing, in any scene: it is
    aborted by the missing file, named by its path; no identity is taken
    and the scene is left exactly as it was. *)
Theorem create_narrator_missing_asset (E : Engine) (s : Scene) :
  file_exists E narrator_path = false ->
  result (create_narrator E s) = Raise (AssetNotFound narrator_path)
  /\ final (create_narrator E s) = s
  /\ narrator_path = "assets/narrator.svg"%string.
Proof.
  intros H. rewrite (create_narrator_absent E s H). repeat split.
Qed.

Lemma create_narrator_missing_asset_witness :
  file_exists bare_studio narrator_path = false
  /\ final (create_narrator bare_studio fresh_scene) = fresh_scene.
Proof.
  split; [reflexivity |].
  exact (proj1 (proj2 (create_narrator_missing_asset bare_studio fresh_scene
                         eq_refl))).
Defined.

(** X13. The whole run, with the narrator image missing, from any scene
    whose canvas holds only objects built in it: it is aborted by the
    missing file; the title and the subtitle have come and gone, and all
    that is left on the canvas it found is the empty mobject of the
    title's wait; the camera stays at 70 and -30 degrees
    on the background #1a1a1a and the frame at 16 by 9, 1920 by 1080
    pixels: the settings of the run are not undone. *)
Theorem construct_missing_asset_scene (E : Engine) (s : Scene) :
  file_exists E narrator_path = false ->
  well_formed s ->
  result (construct E s) = Raise (AssetNotFound narrator_path)
  /\ final (construct E s)
     = mkScene (3 + next_id s)
         (mobjects s ++ [empty_mobject (2 + next_id s)])
         (mkCamera (70 * DEGREES) (-30 * DEGREES) "#1a1a1a")
         (mkConfig 16 9 1920 1080).
Proof. intros HE H. exact (construct_aborted E s HE H). Qed.

Lemma construct_missing_asset_scene_witness :
  file_exists bare_studio narrator_path = false
  /\ well_formed fresh_scene
  /\ final (construct bare_studio fresh_scene)
     = mkScene 3 [empty_mobject 2]
         (mkCamera (70 * DEGREES) (-30 * DEGREES) "#1a1a1a")
         (mkConfig 16 9 1920 1080).
Proof.
  split; [reflexivity |]. split; [apply Forall_nil |].
  exact (proj2 (construct_missing_asset_scene bare_studio fresh_scene
                  eq_refl (Forall_nil _))).
Defined.

(** X14. [show_gravitational_waves] on a scene whose canvas holds only
    objects built in it: it makes no use of the surface it is given; it
    leaves on top of the canvas five circles, all blue, of radii
    0.5 + 0.5 * i for i from 0 to 4, and nothing that was on the canvas
    is touched. *)
Theorem show_gravitational_waves_adds_five (grid grid' : Mobject)
  (s : Scene) :
  well_formed s ->
  show_gravitational_waves grid' s = show_gravitational_waves grid s
  /\ exists waves,
       result (show_gravitational_waves grid s) = Ok tt
       /\ mobjects (final (show_gravitational_waves grid s))
          = mobjects s ++ waves
       /\ map radius_of waves
          = map (fun i => Some (0.5 + 0.5 * inject_Z i)%Q) (range 5)
       /\ Forall (fun m => colors (style m) = [BLUE]) waves.
Proof.
  intros H. split; [reflexivity |].
  destruct (show_gravitational_waves_adds grid s H)
    as (waves & [R F] & Hr & Hc & _).
  exists waves. rewrite F. repeat split; assumption.
Qed.

Lemma show_gravitational_waves_adds_five_witness :
  well_formed fresh_scene
  /\ show_gravitational_waves some_narrator fresh_scene
     = show_gravitational_waves (Mob 1 default_style NoPoints []) fresh_scene.
Proof.
  split; [apply Forall_nil |].
  exact (proj1 (show_gravitational_waves_adds_five
                  (Mob 1 default_style NoPoints []) some_narrator
                  fresh_scene (Forall_nil _))).
Defined.

(** X15. [create_clock] is defined by the class and called by no run:
    whatever the engine and the scene, with or without the narrator
    image, a run of [construct] never enters it. *)
Theorem create_clock_is_never_entered (E : Engine) (s : Scene) :
  existsb enters_create_clock (emitted (construct E s)) = false.
Proof.
  unfold construct, create_narrator, Narrator, SVGMobject.
  destruct (file_exists E narrator_path); vm_compute; reflexivity.
Qed.

(** X16. The thought bubble, whatever style arguments it is given and
    whatever the scene: each trailing circle is placed against the main
    circle, not against the one before it, so the three trailing circles
    overlap one another, and each of them lies clear of the main
    circle. *)
Theorem trailing_circles_overlap (kwargs : Style) (s : Scene) :
  exists bubble main a b c,
    result (ThoughtBubble kwargs s) = Ok bubble
    /\ getitem bubble 0 = Some main
    /\ trailing_circles bubble = [a; b; c]
    /\ circles_meet a b /\ circles_meet b c /\ circles_meet a c
    /\ circles_apart main a /\ circles_apart main b
    /\ circles_apart main c.
Proof.
  rewrite ThoughtBubble_built. cbn [result].
  do 5 eexists.
  split; [reflexivity |]. split; [reflexivity |]. split; [reflexivity |].
  repeat split; vm_compute; reflexivity.
Qed.

(** X17. [Narrator], with the image there and of no negative extent: the
    figure is the loaded image made one and a half times as wide and as
    high, about its own centre. *)
Theorem narrator_is_the_image_enlarged (E : Engine) (s : Scene) :
  file_exists E narrator_path = true ->
  (0 <= fst (svg_extent E narrator_path))%Q ->
  (0 <= snd (svg_extent E narrator_path))%Q ->
  exists narrator,
    result (Narrator E s) = Ok narrator
    /\ (width narrator == 1.5 * fst (svg_extent E narrator_path))%Q
    /\ (height narrator == 1.5 * snd (svg_extent E narrator_path))%Q
    /\ Peq (get_center narrator) ORIGIN.
Proof.
  intros HE. unfold Narrator, SVGMobject. rewrite HE.
  destruct (svg_extent E narrator_path) as [w h]. cbn [fst snd].
  intros Hw Hh.
  eexists. split; [reflexivity |].
  unfold width, height, get_center, scale, get_critical_point. cbn.
  split; [| split].
  - rewrite Q.max_r, Q.min_l by qlra. qlra.
  - rewrite Q.max_r, Q.min_l by qlra. qlra.
  - coordinates; unfold pick; cbn; try rewrite Qmin_max_sum; first [qlra | reflexivity].
Qed.

Lemma narrator_is_the_image_enlarged_witness :
  file_exists studio narrator_path = true
  /\ exists narrator,
       result (Narrator studio fresh_scene) = Ok narrator
       /\ (width narrator == 1.5 * fst (svg_extent studio narrator_path))%Q
       /\ (height narrator == 1.5 * snd (svg_extent studio narrator_path))%Q
       /\ Peq (get_center narrator) ORIGIN.
Proof.
  split; [reflexivity |].
  apply (narrator_is_the_image_enlarged studio fresh_scene eq_refl);
    vm_compute; discriminate.
Defined.

(** * Where the labels go *)

(** [next_to] does bring the facing sides [buff] apart. *)
Lemma next_to_aligns (m target : Mobject) (d : Point) (buff : Q) :
  boxes m <> [] ->
  Peq (get_critical_point (next_to m target d buff) (pneg d))
      (padd (get_critical_point target d) (pscale buff d)).
Proof.
  intros H. unfold next_to. cbv zeta.
  destruct (get_critical_point_shift
              (padd (psub (get_critical_point target d)
                          (get_critical_point m (pneg d)))
                    (pscale buff d)) m (pneg d) H) as (H1 & H2 & H3).
  coordinates; [rewrite H1 | rewrite H2 | rewrite H3]; simpl; qlra.
Qed.

(** X18. [create_reference_frames], whatever the engine and the scene:
    it returns two groups, each a rectangle one unit wide and two high
    with its label; the Earth rectangle is centred two units left of the
    origin and the ship rectangle two units right; each label has the
    middle of its upper side a quarter of a unit under the middle of the
    lower side of its rectangle, whatever the size of the text. *)
Theorem create_reference_frames_placement (E : Engine) (s : Scene) :
  exists earth_frame ship_frame earth ship earth_label ship_label,
    result (create_reference_frames E s) = Ok (earth_frame, ship_frame)
    /\ split earth_frame = [earth; earth_label]
    /\ split ship_frame = [ship; ship_label]
    /\ map kind_of [earth; ship; earth_label; ship_label]
       = [KRect; KRect; KText; KText]
    /\ Peq (get_center earth) (mkPoint (-2) 0 0)
    /\ Peq (get_center ship) (mkPoint 2 0 0)
    /\ (width earth == 1 /\ height earth == 2)%Q
    /\ (width ship == 1 /\ height ship == 2)%Q
    /\ Peq (get_critical_point earth_label UP) (mkPoint (-2) (-1.25) 0)
    /\ Peq (get_critical_point ship_label UP) (mkPoint 2 (-1.25) 0).
Proof.
  do 6 eexists.
  split; [reflexivity |]. split; [reflexivity |]. split; [reflexivity |].
  split; [reflexivity |].
  split; [vm_compute; repeat split; reflexivity |].
  split; [vm_compute; repeat split; reflexivity |].
  split; [vm_compute; split; reflexivity |].
  split; [vm_compute; split; reflexivity |].
  split.
  - eapply Peq_trans.
    + apply (next_to_aligns _ _ DOWN). cbn. discriminate.
    + vm_compute. repeat split; reflexivity.
  - eapply Peq_trans.
    + apply (next_to_aligns _ _ DOWN). cbn. discriminate.
    + vm_compute. repeat split; reflexivity.
Qed.
